(** * smart_feedback: the feedback server of [server.js]

    A shallow embedding of the Express handlers of [src/server.js] and of the
    SQL statements they run, followed by the properties of the handlers.

    Conventions of the embedding.
    - The SQLite database is a record of two tables, each a list of rows in
      rowid order, together with the [sqlite_sequence] counter that
      [AUTOINCREMENT] keeps per table.
    - A handler is a function from the database and the request to the new
      database and the response.  The callbacks of one request are run to
      completion before the next request is looked at.
    - What the handlers take from outside the repository is a parameter of the
      development: the compound polarity of VADER, [bcrypt.hash] and
      [bcrypt.compare], the salt bcrypt draws, the value of
      [CURRENT_TIMESTAMP], and two conversions of the storage engine, the
      reading of a REAL from a text and [AVG].
    - A route parameter is the string of its UTF-8 bytes.
    - A [sentiment_score] is an exact rational.  Every finite binary64 value
      is one, the comparisons of the handler are the comparisons of those
      rationals, and no binary64 value lies strictly between the literal
      [0.3] of the source and 3/10, so the labels are those of the source.
      [AVG] rounds: it is taken from the engine, under the assumption that it
      is within the rounding error of binary64 of the arithmetic mean.
    - Failures of the storage engine other than constraint violations (disk,
      locking) are outside the model. *)

From Stdlib Require Import ZArith QArith List String Ascii Bool Lia.
From Stdlib Require Import Qabs Qpower Permutation Sorted OrdersEx Lqa.
Import ListNotations.

Local Open Scope string_scope.
Local Open Scope list_scope.
Local Open Scope Z_scope.

(** ** JavaScript values of the request bodies

    A textual field of a JSON body is absent (or [null]) or a string; the
    field [user_id] is absent or an integer, which [JSON.parse] reads as a
    binary64 number. *)

Module Js.

(** [!v] for a textual field: [undefined], [null] and [''] are falsy. *)
Definition falsy (v : option string) : bool :=
  match v with
  | None => true
  | Some s => (s =? "")%string
  end.

(** The string a truthy textual field holds. *)
Definition str (v : option string) : string :=
  match v with
  | Some s => s
  | None => ""
  end.

(** [v || ''] *)
Definition or_empty (v : option string) : string :=
  if falsy v then "" else str v.

(** The integers that JSON.parse reads as a finite number: those that round
    to at most the largest binary64 number, 2^1024 - 2^971. *)
Definition finite_json (z : Z) : bool := Z.abs z <? 2 ^ 1024 - 2 ^ 970.

(** An integer as the JSON text of a request body writes it. *)
Record json_int := mkJsonInt {
  json_value : Z;
  json_finite : finite_json json_value = true
}.

Definition json_zero : json_int := mkJsonInt 0 eq_refl.

(** The JSON integer written [z], for an integer [z] of the finite range
    (and 0 for any other); the bodies of the samples are written with it. *)
Definition json_int_of_Z (z : Z) : json_int :=
  (if finite_json z as b return finite_json z = b -> json_int
   then fun H => mkJsonInt z H
   else fun _ => json_zero) eq_refl.

(** The binary64 number nearest to an integer, ties to the even significand:
    an integer of at most 53 bits is kept, a longer one loses its low
    bits. *)
Definition binary64_of_Z (z : Z) : Z :=
  let a := Z.abs z in
  let e := Z.log2 a - 52 in
  if e <=? 0 then z
  else
    let q := a / 2 ^ e in
    let r := a mod 2 ^ e in
    let half := 2 ^ (e - 1) in
    let q' := if (half <? r) || ((r =? half) && Z.odd q) then q + 1 else q in
    Z.sgn z * (q' * 2 ^ e).

(** The number the handler holds for a JSON integer. *)
Definition Number (n : json_int) : Z := binary64_of_Z (json_value n).

(** [!v] for a numeric field: [undefined], [null] and [0] are falsy. *)
Definition falsy_num (v : option json_int) : bool :=
  match v with
  | None => true
  | Some n => Number n =? 0
  end.

(** [v || null] *)
Definition or_null (v : option json_int) : option Z :=
  if falsy_num v then None else option_map Number v.

End Js.

(** An integer literal in the place of a [user_id] is the JSON integer it
    writes. *)
Coercion Js.json_int_of_Z : Z >-> Js.json_int.
Arguments Some {A} & a.

(** ** Numeric text

    A route parameter is a string.  The handler of the deletion asks
    JavaScript whether it is a number ([isNaN]); the statements hand it to
    SQLite, which compares it with an INTEGER column after its own reading of
    numeric text.  The two readings differ and both are given here. *)

Module NumText.

Definition code (c : ascii) : Z := Z.of_N (N_of_ascii c).

Definition bytes (s : string) : list ascii := list_ascii_of_string s.

Definition is_digit (c : ascii) : bool := (48 <=? code c) && (code c <=? 57).

Definition hex_digit (c : ascii) : bool :=
  is_digit c || ((65 <=? code c) && (code c <=? 70))
  || ((97 <=? code c) && (code c <=? 102)).

Definition oct_digit (c : ascii) : bool := (48 <=? code c) && (code c <=? 55).

Definition bin_digit (c : ascii) : bool := (48 <=? code c) && (code c <=? 49).

(** [e] or [E] *)
Definition is_e (c : ascii) : bool := (code c =? 101) || (code c =? 69).

(** The longest prefix whose characters satisfy [p], and what follows it. *)
Fixpoint span (p : ascii -> bool) (l : list ascii) : list ascii * list ascii :=
  match l with
  | c :: l' =>
      if p c then let '(a, b) := span p l' in (c :: a, b) else ([], l)
  | [] => ([], [])
  end.

Definition is_nil (l : list ascii) : bool :=
  match l with
  | [] => true
  | _ => false
  end.

(** [l] without the prefix [w], when it has it. *)
Fixpoint strip_prefix (w l : list ascii) : option (list ascii) :=
  match w, l with
  | [], _ => Some l
  | a :: w', b :: l' => if (code a =? code b) then strip_prefix w' l' else None
  | _ :: _, [] => None
  end.

(** An optional [+] or [-]. *)
Definition strip_sign (l : list ascii) : list ascii :=
  match l with
  | c :: l' => if (code c =? 43) || (code c =? 45) then l' else l
  | [] => []
  end.

(** *** JavaScript

    The white space and line terminators that StringToNumber strips, in
    UTF-8: TAB, LF, VT, FF, CR, SP, U+00A0, U+1680, U+2000 to U+200A, U+2028,
    U+2029, U+202F, U+205F, U+3000 and U+FEFF. *)
Definition js_white_space : list (list ascii) :=
  map (map ascii_of_nat)
      [[9]; [10]; [11]; [12]; [13]; [32]; [194; 160]; [225; 154; 128];
       [226; 128; 128]; [226; 128; 129]; [226; 128; 130]; [226; 128; 131];
       [226; 128; 132]; [226; 128; 133]; [226; 128; 134]; [226; 128; 135];
       [226; 128; 136]; [226; 128; 137]; [226; 128; 138]; [226; 128; 168];
       [226; 128; 169]; [226; 128; 175]; [226; 129; 159]; [227; 128; 128];
       [239; 187; 191]]%nat.

(** [l] without one leading white space character, when it has one. *)
Fixpoint strip_any (ws : list (list ascii)) (l : list ascii)
  : option (list ascii) :=
  match ws with
  | w :: ws' =>
      match strip_prefix w l with
      | Some r => Some r
      | None => strip_any ws' l
      end
  | [] => None
  end.

Fixpoint js_skip (fuel : nat) (l : list ascii) : list ascii :=
  match fuel with
  | O => l
  | S fuel' =>
      match strip_any js_white_space l with
      | Some r => js_skip fuel' r
      | None => l
      end
  end.

(** [l] without its leading white space. *)
Definition js_trim_start (l : list ascii) : list ascii :=
  js_skip (List.length l) l.

Definition js_all_white (l : list ascii) : bool := is_nil (js_trim_start l).

(** An optional ExponentPart, then only white space. *)
Definition js_exponent_then_white (l : list ascii) : bool :=
  match l with
  | c :: l' =>
      if is_e c then
        let '(ds, rest) := span is_digit (strip_sign l') in
        negb (is_nil ds) && js_all_white rest
      else js_all_white l
  | [] => true
  end.

(** StrUnsignedDecimalLiteral, then only white space. *)
Definition js_unsigned_then_white (l : list ascii) : bool :=
  match strip_prefix (bytes "Infinity") l with
  | Some rest => js_all_white rest
  | None =>
      let '(i, r1) := span is_digit l in
      match r1 with
      | c :: r2 =>
          if code c =? 46 then
            let '(f, r3) := span is_digit r2 in
            (negb (is_nil i) || negb (is_nil f)) && js_exponent_then_white r3
          else negb (is_nil i) && js_exponent_then_white r1
      | [] => negb (is_nil i)
      end
  end.

(** NonDecimalIntegerLiteral, then only white space. *)
Definition js_non_decimal_then_white (l : list ascii) : bool :=
  match l with
  | z :: c :: l' =>
      let n := code c in
      let digits p :=
        let '(ds, rest) := span p l' in
        negb (is_nil ds) && js_all_white rest in
      if negb (code z =? 48) then false
      else if (n =? 120) || (n =? 88) then digits hex_digit
      else if (n =? 111) || (n =? 79) then digits oct_digit
      else if (n =? 98) || (n =? 66) then digits bin_digit
      else false
  | _ => false
  end.

(** [isNaN(s)] for a string [s]: [Number(s)] is NaN exactly when [s] is not
    a StringNumericLiteral.  The empty and the all-blank string convert
    to 0. *)
Definition isNaN (s : string) : bool :=
  match js_trim_start (bytes s) with
  | [] => false
  | l => negb (js_unsigned_then_white (strip_sign l)
               || js_non_decimal_then_white l)
  end.

(** *** SQLite

    The text the engine converts when a TEXT parameter meets an INTEGER
    column (numeric affinity): optional ASCII white space, an optional sign,
    digits with an optional point and an optional exponent, optional ASCII
    white space.  Hexadecimal text, [Infinity] and other white space are not
    numbers to the engine. *)

(** [sqlite3Isspace] *)
Definition is_space (c : ascii) : bool :=
  (code c =? 32) || ((9 <=? code c) && (code c <=? 13)).

Fixpoint skip_spaces (l : list ascii) : list ascii :=
  match l with
  | c :: l' => if is_space c then skip_spaces l' else l
  | [] => []
  end.

Definition all_spaces (l : list ascii) : bool := forallb is_space l.

(** The number a string of digits denotes. *)
Definition digits_value (ds : list ascii) : Z :=
  fold_left (fun a c => 10 * a + (code c - 48)) ds 0.

(** A numeric text by its parts. *)
Record decimal := mkDecimal {
  dec_neg : bool;
  dec_int : list ascii;
  dec_point : bool;
  dec_frac : list ascii;
  dec_exp : option Z
}.

(** The text starts with [-]. *)
Definition starts_minus (l : list ascii) : bool :=
  match l with
  | c :: _ => code c =? 45
  | [] => false
  end.

(** An optional exponent and what follows it; [None] when [e] is followed by
    no digit. *)
Definition read_exponent (l : list ascii) : option (option Z * list ascii) :=
  match l with
  | c :: l' =>
      if is_e c then
        let '(ds, rest) := span is_digit (strip_sign l') in
        if is_nil ds then None
        else Some (Some (if starts_minus l' then - digits_value ds
                         else digits_value ds), rest)
      else Some (None, l)
  | [] => Some (None, [])
  end.

(** A signed decimal literal and what follows it. *)
Definition read_decimal (l : list ascii) : option (decimal * list ascii) :=
  let '(i, r1) := span is_digit (strip_sign l) in
  let '(point, f, r2) :=
    match r1 with
    | c :: r =>
        if code c =? 46 then let '(f, r') := span is_digit r in (true, f, r')
        else (false, [], r1)
    | [] => (false, [], [])
    end in
  if is_nil i && is_nil f then None
  else
    match read_exponent r2 with
    | Some (e, rest) => Some (mkDecimal (starts_minus l) i point f e, rest)
    | None => None
    end.

(** The numeric text [s], when the whole of [s] is one. *)
Definition decimal_of_text (s : string) : option decimal :=
  match read_decimal (skip_spaces (bytes s)) with
  | Some (d, rest) => if all_spaces rest then Some d else None
  | None => None
  end.

(** The text is an integer literal, with no point and no exponent, of a value
    that fits 64 bits: the engine reads it as that integer, exactly. *)
Definition int64_of_decimal (d : decimal) : option Z :=
  match dec_point d, dec_exp d with
  | false, None =>
      let v := if dec_neg d then - digits_value (dec_int d)
               else digits_value (dec_int d) in
      if (- 2 ^ 63 <=? v) && (v <? 2 ^ 63) then Some v else None
  | _, _ => None
  end.

(** The exact value of a numeric text. *)
Definition decimal_value (d : decimal) : Q :=
  let m := digits_value (dec_int d ++ dec_frac d) in
  let e := match dec_exp d with
           | Some e => e
           | None => 0
           end - Z.of_nat (List.length (dec_frac d)) in
  let v := if 0 <=? e then inject_Z (m * 10 ^ e)
           else m # Z.to_pos (10 ^ (- e)) in
  if dec_neg d then (- v)%Q else v.

(** *** Printing

    The decimal text of an integer, as [String(n)] writes it and as a client
    puts an id into a route. *)

Definition digit_char (d : Z) : ascii := ascii_of_N (Z.to_N (48 + d)).

Fixpoint digits_of (fuel : nat) (n : Z) (acc : list ascii) : list ascii :=
  match fuel with
  | O => acc
  | S fuel' =>
      let acc' := digit_char (n mod 10) :: acc in
      if n <? 10 then acc' else digits_of fuel' (n / 10) acc'
  end.

(** The digits of the magnitude of [i]. *)
Definition magnitude_digits (i : Z) : list ascii :=
  digits_of (S (Z.to_nat (Z.log2 (Z.abs i)))) (Z.abs i) [].

Definition text_of_int (n : Z) : string :=
  string_of_list_ascii
    (if n <? 0 then "-"%char :: magnitude_digits n else magnitude_digits n).

(** *** What the correspondence with the grammar is argued with *)

(** The first byte of a white space character. *)
Definition white_start (c : ascii) : bool :=
  let n := code c in
  ((9 <=? n) && (n <=? 13)) || (n =? 32) || (n =? 194) || (n =? 225)
  || (n =? 226) || (n =? 227) || (n =? 239).

(** What follows a literal: nothing, or a character no white space starts
    with. *)
Definition stops (l : list ascii) : Prop :=
  l = [] \/ exists c l', l = c :: l' /\ white_start c = false.

End NumText.

(** ** The grammar of StringNumericLiteral (ECMAScript, StringToNumber) *)

Module Grammar.

Import NumText.

(** StrWhiteSpace: white space characters one after another. *)
Inductive white : list ascii -> Prop :=
| white_nil : white []
| white_cons (w l : list ascii) :
    In w js_white_space -> white l -> white (w ++ l).

(** DecimalDigits, possibly none. *)
Definition digits (l : list ascii) : Prop := forallb is_digit l = true.

Definition sign_opt (s : list ascii) : Prop :=
  s = [] \/ s = ["+"%char] \/ s = ["-"%char].

(** ExponentPart: [e] or [E], an optional sign, digits. *)
Definition exponent_part (e : list ascii) : Prop :=
  exists c s ds,
    e = c :: s ++ ds /\ is_e c = true /\ sign_opt s /\ ds <> [] /\ digits ds.

Definition exponent_opt (e : list ascii) : Prop :=
  e = [] \/ exponent_part e.

(** StrUnsignedDecimalLiteral: [Infinity]; digits, a point, optional digits
    and an optional exponent; a point, digits and an optional exponent;
    digits and an optional exponent. *)
Definition unsigned_decimal (l : list ascii) : Prop :=
  l = bytes "Infinity"
  \/ (exists i f e,
        l = i ++ "."%char :: f ++ e /\ digits i /\ digits f
        /\ (i <> [] \/ f <> []) /\ exponent_opt e)
  \/ (exists i e, l = i ++ e /\ digits i /\ i <> [] /\ exponent_opt e).

(** StrDecimalLiteral *)
Definition decimal_literal (l : list ascii) : Prop :=
  exists s u, l = s ++ u /\ sign_opt s /\ unsigned_decimal u.

(** NonDecimalIntegerLiteral: [0x], [0o] or [0b], either case, and digits
    of that base. *)
Definition non_decimal_literal (l : list ascii) : Prop :=
  exists c ds,
    l = "0"%char :: c :: ds /\ ds <> []
    /\ (((code c = 120 \/ code c = 88) /\ forallb hex_digit ds = true)
        \/ ((code c = 111 \/ code c = 79) /\ forallb oct_digit ds = true)
        \/ ((code c = 98 \/ code c = 66) /\ forallb bin_digit ds = true)).

(** StrNumericLiteral *)
Definition numeric_literal (l : list ascii) : Prop :=
  decimal_literal l \/ non_decimal_literal l.

(** StringNumericLiteral: optional white space, or a numeric literal between
    optional white space. *)
Definition StringNumericLiteral (s : string) : Prop :=
  exists pre body post,
    bytes s = pre ++ body ++ post /\ white pre /\ white post
    /\ (body = [] \/ numeric_literal body).

End Grammar.

(** ** Ordered keys

    The total order the storage engine sorts and groups a column by. *)

Class KeyOrder {K : Type} (cmp : K -> K -> comparison) : Prop := {
  cmp_eq : forall x y, cmp x y = Eq <-> x = y;
  cmp_gt : forall x y, cmp x y = Gt <-> cmp y x = Lt;
  cmp_trans : forall x y z, cmp x y = Lt -> cmp y z = Lt -> cmp x z = Lt
}.

(** Lexicographic combination of two comparisons. *)
Definition lex (c1 c2 : comparison) : comparison :=
  match c1 with
  | Eq => c2
  | _ => c1
  end.

(** TEXT under the BINARY collation, NULL first. *)
Definition text_compare (a b : option string) : comparison :=
  match a, b with
  | None, None => Eq
  | None, Some _ => Lt
  | Some _, None => Gt
  | Some x, Some y => String_as_OT.compare x y
  end.

(** ** Dates and times

    [CURRENT_TIMESTAMP] is the text [YYYY-MM-DD HH:MM:SS] and [DATE(...)] of
    it the text [YYYY-MM-DD]; both are kept by their fields, compared field by
    field as the engine compares the fixed-width texts. *)

Record date := mkDate {
  year : Z;
  month : Z;
  day : Z
}.

Record datetime := mkDatetime {
  dt_date : date;
  hour : Z;
  minute : Z;
  second : Z
}.

Definition date_compare (a b : date) : comparison :=
  lex (year a ?= year b) (lex (month a ?= month b) (day a ?= day b)).

Definition datetime_compare (a b : datetime) : comparison :=
  lex (date_compare (dt_date a) (dt_date b))
      (lex (hour a ?= hour b)
           (lex (minute a ?= minute b) (second a ?= second b))).

(** [DATE(created_at)] *)
Definition DATE (t : datetime) : date := dt_date t.

(** ** GROUP BY with an aggregate

    The rows are taken in table order; each joins the group of its key, the
    groups being kept in ascending key order.  [a0] is the aggregate of no
    row and [step] adds one row to it. *)

Section GroupBy.

Context {R K A : Type}.
Variable key : R -> K.
Variable cmp : K -> K -> comparison.
Variable a0 : A.
Variable step : A -> R -> A.

Fixpoint group_insert (r : R) (g : list (K * A)) : list (K * A) :=
  match g with
  | [] => [(key r, step a0 r)]
  | (k, a) :: g' =>
      match cmp (key r) k with
      | Lt => (key r, step a0 r) :: g
      | Eq => (k, step a r) :: g'
      | Gt => (k, a) :: group_insert r g'
      end
  end.

Definition group_by (rows : list R) : list (K * A) :=
  fold_left (fun g r => group_insert r g) rows [].

(** The aggregate of key [k] in a list of groups. *)
Fixpoint group_lookup (k : K) (g : list (K * A)) : option A :=
  match g with
  | [] => None
  | (k', a) :: g' =>
      match cmp k k' with
      | Eq => Some a
      | _ => group_lookup k g'
      end
  end.

(** The row [r] has the key [k]. *)
Definition same_key (k : K) (r : R) : bool :=
  match cmp (key r) k with
  | Eq => true
  | _ => false
  end.

(** The rows of key [k], in table order. *)
Definition rows_of_key (k : K) (rows : list R) : list R :=
  filter (same_key k) rows.

(** The keys of the groups ascend strictly. *)
Definition ascending (g : list (K * A)) : Prop :=
  StronglySorted (fun x y => cmp x y = Lt) (map fst g).

(** The aggregate of the rows of key [k]. *)
Definition aggregate (k : K) (rows : list R) : A :=
  fold_left step (rows_of_key k rows) a0.

End GroupBy.

(** ** The database *)

(** A row of [users]. *)
Record user_row := mkUser {
  u_id : Z;
  u_username : string;
  u_password : string
}.

(** A row of [feedback]; [None] is SQL NULL. *)
Record feedback_row := mkFeedback {
  f_id : Z;
  f_user_id : option Z;
  f_username : option string;
  f_role : string;
  f_feedback_type : option string;
  f_feedback_text : string;
  f_sentiment_label : string;
  f_sentiment_score : Q;
  f_created_at : datetime
}.

(** The two tables in rowid order and the [sqlite_sequence] entry of each:
    the largest rowid the table has ever held. *)
Record db := mkDb {
  users : list user_row;
  users_seq : Z;
  feedback : list feedback_row;
  feedback_seq : Z
}.

(** The database after the two [CREATE TABLE IF NOT EXISTS] on a new file. *)
Definition empty_db : db := mkDb [] 0 [] 0.

Definition max_rowid (ids : list Z) : Z := fold_right Z.max 0 ids.

(** The rowid [AUTOINCREMENT] gives the next row: one more than the largest
    rowid ever held, never a rowid of a deleted row. *)
Definition next_rowid (seq : Z) (ids : list Z) : Z :=
  Z.max seq (max_rowid ids) + 1.

(** [CHECK(role IN ('guest', 'user', 'admin'))] *)
Definition role_check (role : string) : bool :=
  ((role =? "guest") || (role =? "user") || (role =? "admin"))%string.

(** [INSERT INTO users (username, password) VALUES (?, ?)]; [None] when
    [username] is taken ([UNIQUE]). *)
Definition insert_user (d : db) (username hash : string) : option db :=
  if existsb (fun u => (u_username u =? username)%string) (users d) then None
  else
    let id := next_rowid (users_seq d) (map u_id (users d)) in
    Some (mkDb (users d ++ [mkUser id username hash]) id
               (feedback d) (feedback_seq d)).

(** [SELECT ... FROM users WHERE username = ?] through [db.get]: the first
    row of the result, if any. *)
Definition select_user (d : db) (username : string) : option user_row :=
  find (fun u => (u_username u =? username)%string) (users d).

(** [INSERT INTO feedback (user_id, username, role, feedback_type,
    feedback_text, sentiment_label, sentiment_score) VALUES (?, ...)];
    [created_at] takes its default, [now].  [None] when the [CHECK] on
    [role] fails.  The foreign key is declared but SQLite does not enforce it
    unless asked to, and the server does not ask. *)
Definition insert_feedback (d : db) (now : datetime)
    (user_id : option Z) (username : option string) (role : string)
    (feedback_type : option string) (feedback_text sentiment_label : string)
    (sentiment_score : Q) : option db :=
  if role_check role then
    let id := next_rowid (feedback_seq d) (map f_id (feedback d)) in
    Some (mkDb (users d) (users_seq d)
               (feedback d ++ [mkFeedback id user_id username role feedback_type
                                 feedback_text sentiment_label sentiment_score
                                 now])
               id)
  else None.

(** [ORDER BY created_at DESC]: rows of equal time keep their table order. *)
Fixpoint insert_desc (r : feedback_row) (l : list feedback_row)
  : list feedback_row :=
  match l with
  | [] => [r]
  | x :: l' =>
      match datetime_compare (f_created_at x) (f_created_at r) with
      | Gt => x :: insert_desc r l'
      | _ => r :: l
      end
  end.

Definition order_by_created_at_desc (rows : list feedback_row)
  : list feedback_row :=
  fold_right insert_desc [] rows.

(** [SELECT sentiment_label, COUNT( * ) as count FROM feedback
    GROUP BY sentiment_label] *)
Definition select_sentiment_summary (d : db) : list (string * Z) :=
  group_by f_sentiment_label String_as_OT.compare 0 (fun n _ => n + 1)
           (feedback d).

(** [SELECT feedback_type, COUNT( * ) as count FROM feedback
    GROUP BY feedback_type] *)
Definition select_count_by_type (d : db) : list (option string * Z) :=
  group_by f_feedback_type text_compare 0 (fun n _ => n + 1) (feedback d).

(** ** What the server requires

    [polarity_compound text] is
    [vader.SentimentIntensityAnalyzer.polarity_scores(text).compound];
    [bcrypt_hash password rounds salt] is the hash [bcrypt.hash] hands to its
    callback when it has drawn [salt]; [bcrypt_compare password hash] is the
    verdict of [bcrypt.compare].

    Two conversions of the storage engine are taken from it as they are.
    [sqlite_real s], for a numeric text [s] that is not an integer literal of
    64 bits, is the integer that the REAL the engine converts [s] to is equal
    to, if it is equal to one.  [sqlite_avg scores] is what [AVG] returns for
    a group whose values, in the order the engine steps through them, are
    [scores]: their binary64 sum divided by their number. *)

Class Libraries := {
  polarity_compound : string -> Q;
  bcrypt_hash : string -> Z -> string -> string;
  bcrypt_compare : string -> string -> bool;
  sqlite_real : string -> option Z;
  sqlite_avg : list Q -> Q
}.

(** bcrypt accepts the password a hash was made from. *)
Class BcryptCorrect (L : Libraries) : Prop :=
  compare_hash : forall password rounds salt,
    bcrypt_compare password (bcrypt_hash password rounds salt) = true.

Definition PORT : Z := 5000.
Definition saltRounds : Z := 10.

(** ** The statements with a parameter *)

Section Engine.

Context {L : Libraries}.

(** [col = ?] for an INTEGER column holding [i] and a TEXT parameter [s].
    Numeric affinity is applied to the parameter: a text that is not numeric
    stays text and equals no integer; an integer literal of 64 bits becomes
    that integer; any other numeric text becomes a REAL. *)
Definition int_eq_text (i : Z) (s : string) : bool :=
  match NumText.decimal_of_text s with
  | Some d =>
      match NumText.int64_of_decimal d with
      | Some v => v =? i
      | None =>
          match sqlite_real s with
          | Some v => v =? i
          | None => false
          end
      end
  | None => false
  end.

(** [WHERE user_id = ?] with a text parameter: NULL equals nothing. *)
Definition user_id_matches (userId : string) (r : feedback_row) : bool :=
  match f_user_id r with
  | Some u => int_eq_text u userId
  | None => false
  end.

(** [WHERE id = ?] with a text parameter. *)
Definition id_matches (feedbackId : string) (r : feedback_row) : bool :=
  int_eq_text (f_id r) feedbackId.

(** [DELETE FROM feedback WHERE id = ?]: the new database and [this.changes]. *)
Definition delete_feedback_rows (d : db) (feedbackId : string) : db * Z :=
  let kept := filter (fun r => negb (id_matches feedbackId r)) (feedback d) in
  (mkDb (users d) (users_seq d) kept (feedback_seq d),
   Z.of_nat (List.length (feedback d)) - Z.of_nat (List.length kept)).

(** [SELECT DATE(created_at) AS date, AVG(sentiment_score) AS avg_score
    FROM feedback GROUP BY DATE(created_at) ORDER BY DATE(created_at)]: the
    scores of a date are gathered in table order and averaged by the
    engine. *)
Definition select_avg_sentiment (d : db) : list (date * Q) :=
  map (fun g => (fst g, sqlite_avg (snd g)))
      (group_by (fun r => DATE (f_created_at r)) date_compare []
                (fun scores r => scores ++ [f_sentiment_score r])
                (feedback d)).

End Engine.

(** ** What the queries are measured against *)

Definition sum_counts (counts : list Z) : Z := fold_right Z.add 0 counts.

(** The rows labelled [l]. *)
Definition rows_labelled (l : string) (rows : list feedback_row)
  : list feedback_row :=
  filter (fun r => (f_sentiment_label r =? l)%string) rows.

(** The row was created on the calendar day [dt]: the year, the month and
    the day of its [created_at] are those of [dt]. *)
Definition created_on (dt : date) (r : feedback_row) : bool :=
  (year (dt_date (f_created_at r)) =? year dt)
  && (month (dt_date (f_created_at r)) =? month dt)
  && (day (dt_date (f_created_at r)) =? day dt).

(** The rows created on the calendar day [dt], in table order. *)
Definition rows_created_on (dt : date) (rows : list feedback_row)
  : list feedback_row :=
  filter (created_on dt) rows.

(** The day [a] comes before the day [b] in the calendar. *)
Definition date_before (a b : date) : Prop :=
  year a < year b
  \/ (year a = year b
      /\ (month a < month b \/ (month a = month b /\ day a < day b))).

(** The arithmetic mean of a list of scores: their sum over their number. *)
Definition arithmetic_mean (scores : list Q) : Q :=
  (fold_left Qplus scores 0 / inject_Z (Z.of_nat (List.length scores)))%Q.

(** The unit roundoff of binary64: half the distance from 1 to the next
    number. *)
Definition unit_roundoff : Q := 1 # 9007199254740992.

(** The growth of the rounding error over [m] operations. *)
Definition growth (m : nat) : Q := ((1 + unit_roundoff) ^ Z.of_nat m)%Q.

(** The rounding error of an average: the additions of the [n] scores and
    the division, each rounded once, move the result by at most this much
    from the arithmetic mean. *)
Definition rounding_error (scores : list Q) : Q :=
  ((growth (S (List.length scores)) - 1)
   * arithmetic_mean (map Qabs scores))%Q.

(** [AVG] is an average computed in binary64: it is within the rounding
    error of the arithmetic mean. *)
Class AvgRounded (L : Libraries) : Prop :=
  avg_rounded : forall scores,
    scores <> [] ->
    (Qabs (sqlite_avg scores - arithmetic_mean scores)
     <= rounding_error scores)%Q.

(** The row has the rowid [i]. *)
Definition has_id (i : Z) (r : feedback_row) : bool := f_id r =? i.

(** The row has the user_id [u]. *)
Definition has_user_id (u : Z) (r : feedback_row) : bool :=
  match f_user_id r with
  | Some v => v =? u
  | None => false
  end.

(** The integers a 64-bit INTEGER column holds. *)
Definition int64 (i : Z) : Prop := - 2 ^ 63 <= i < 2 ^ 63.

(** ** Requests and responses *)

(** The body of [POST /api/register] and of [POST /api/login]. *)
Record credentials := mkCredentials {
  c_username : option string;
  c_password : option string
}.

(** The body of [POST /api/feedback]. *)
Record feedback_body := mkFeedbackBody {
  b_user_id : option Js.json_int;
  b_username : option string;
  b_role : option string;
  b_feedback_type : option string;
  b_feedback_text : option string
}.

(** The JSON bodies the handlers send. *)
Inductive body :=
| ErrorBody (error : string)
| UserBody (userId : Z)
| SuccessBody
| MessageBody (success : bool) (message : string)
| FeedbackRows (rows : list feedback_row)
| LabelCounts (rows : list (string * Z))
| TypeCounts (rows : list (option string * Z))
| DateAverages (rows : list (date * Q)).

(** What a request ends in: a status with a body, or an exception no handler
    catches. *)
Inductive response :=
| Reply (status : Z) (b : body)
| Uncaught.

Definition status_of (r : response) : option Z :=
  match r with
  | Reply s _ => Some s
  | Uncaught => None
  end.

Definition Qltb (x y : Q) : bool := negb (Qle_bool y x).

(** Lines 85 to 87: the label of a compound score. *)
Definition sentiment_label (compound : Q) : string :=
  if Qltb (3 # 10) compound then "positive"
  else if Qltb compound (-3 # 10) then "negative"
  else "neutral".

Section Handlers.

Context {L : Libraries}.

(** Lines 84 to 88 on their own: the label and the score of a text. *)
Definition classify (feedback_text : string) : string * Q :=
  let compound := polarity_compound feedback_text in
  let label := sentiment_label compound in
  let sentiment_score := compound in
  (label, sentiment_score).

(** [app.post('/api/register', ...)] *)
Definition post_register (d : db) (req : credentials) (salt : string)
  : db * response :=
  if Js.falsy (c_username req) || Js.falsy (c_password req) then
    (d, Reply 400 (ErrorBody "Username and password required"))
  else
    let username := Js.str (c_username req) in
    let hash := bcrypt_hash (Js.str (c_password req)) saltRounds salt in
    match insert_user d username hash with
    | None => (d, Reply 400 (ErrorBody "User already exists or DB error"))
    | Some d' =>
        match select_user d' username with
        | Some row => (d', Reply 200 (UserBody (u_id row)))
        | None => (d', Uncaught)
        end
    end.

(** [app.post('/api/login', ...)] *)
Definition post_login (d : db) (req : credentials) : db * response :=
  if Js.falsy (c_username req) || Js.falsy (c_password req) then
    (d, Reply 400 (ErrorBody "Username and password required"))
  else
    match select_user d (Js.str (c_username req)) with
    | None => (d, Reply 400 (ErrorBody "Invalid username or password"))
    | Some row =>
        if bcrypt_compare (Js.str (c_password req)) (u_password row) then
          (d, Reply 200 (UserBody (u_id row)))
        else (d, Reply 400 (ErrorBody "Invalid username or password"))
    end.

(** [app.post('/api/feedback', ...)] *)
Definition post_feedback (d : db) (req : feedback_body) (now : datetime)
  : db * response :=
  if Js.falsy (b_feedback_text req) || Js.falsy (b_role req)
     || (Js.falsy (b_username req) && Js.falsy_num (b_user_id req)) then
    (d, Reply 400 (ErrorBody "Missing feedback fields"))
  else
    let feedback_text := Js.str (b_feedback_text req) in
    let compound := polarity_compound feedback_text in
    let label := sentiment_label compound in
    let sentiment_score := compound in
    match insert_feedback d now
            (Js.or_null (b_user_id req))
            (Some (Js.or_empty (b_username req)))
            (Js.str (b_role req))
            (Some (Js.or_empty (b_feedback_type req)))
            feedback_text label sentiment_score with
    | None => (d, Reply 500 (ErrorBody "Failed to save feedback"))
    | Some d' => (d', Reply 200 SuccessBody)
    end.

(** The guard of line 80. *)
Definition missing_fields (req : feedback_body) : bool :=
  Js.falsy (b_feedback_text req) || Js.falsy (b_role req)
  || (Js.falsy (b_username req) && Js.falsy_num (b_user_id req)).

(** The row an accepted request adds. *)
Definition row_of_request (d : db) (req : feedback_body) (now : datetime)
  : feedback_row :=
  let text := Js.str (b_feedback_text req) in
  mkFeedback (next_rowid (feedback_seq d) (map f_id (feedback d)))
             (Js.or_null (b_user_id req))
             (Some (Js.or_empty (b_username req)))
             (Js.str (b_role req))
             (Some (Js.or_empty (b_feedback_type req)))
             text
             (sentiment_label (polarity_compound text))
             (polarity_compound text)
             now.

(** [app.get('/api/all-feedback', ...)] *)
Definition get_all_feedback (d : db) : db * response :=
  (d, Reply 200 (FeedbackRows (order_by_created_at_desc (feedback d)))).

(** [app.get('/api/feedback/user/:userId', ...)] *)
Definition get_feedback_user (d : db) (userId : string) : db * response :=
  (d, Reply 200 (FeedbackRows
                   (order_by_created_at_desc
                      (filter (user_id_matches userId) (feedback d))))).

(** [app.get('/api/sentiment-summary', ...)] *)
Definition get_sentiment_summary (d : db) : db * response :=
  (d, Reply 200 (LabelCounts (select_sentiment_summary d))).

(** [app.get('/api/feedback-count-by-type', ...)] *)
Definition get_feedback_count_by_type (d : db) : db * response :=
  (d, Reply 200 (TypeCounts (select_count_by_type d))).

(** [app.get('/api/avg-sentiment-over-time', ...)] *)
Definition get_avg_sentiment_over_time (d : db) : db * response :=
  (d, Reply 200 (DateAverages (select_avg_sentiment d))).

(** [app.delete('/api/delete-feedback/:id', ...)] *)
Definition delete_feedback (d : db) (feedbackId : string) : db * response :=
  if (feedbackId =? "")%string || NumText.isNaN feedbackId then
    (d, Reply 400 (MessageBody false "Invalid feedback ID."))
  else
    let '(d', changes) := delete_feedback_rows d feedbackId in
    if 0 <? changes then
      (d', Reply 200 (MessageBody true "Feedback deleted successfully."))
    else (d', Reply 404 (MessageBody false "Feedback not found.")).

(** The requests the server routes, each with what it draws from outside. *)
Inductive request :=
| POST_register (req : credentials) (salt : string)
| POST_login (req : credentials)
| POST_feedback (req : feedback_body) (now : datetime)
| GET_all_feedback
| GET_feedback_user (userId : string)
| GET_sentiment_summary
| GET_feedback_count_by_type
| GET_avg_sentiment_over_time
| DELETE_feedback (feedbackId : string).

Definition handle (d : db) (r : request) : db * response :=
  match r with
  | POST_register req salt => post_register d req salt
  | POST_login req => post_login d req
  | POST_feedback req now => post_feedback d req now
  | GET_all_feedback => get_all_feedback d
  | GET_feedback_user userId => get_feedback_user d userId
  | GET_sentiment_summary => get_sentiment_summary d
  | GET_feedback_count_by_type => get_feedback_count_by_type d
  | GET_avg_sentiment_over_time => get_avg_sentiment_over_time d
  | DELETE_feedback feedbackId => delete_feedback d feedbackId
  end.

(** The database after a sequence of requests. *)
Definition run (d : db) (rs : list request) : db :=
  fold_left (fun d r => fst (handle d r)) rs d.

End Handlers.

(** The rows a listing response carries. *)
Definition rows_of (r : response) : list feedback_row :=
  match r with
  | Reply _ (FeedbackRows rows) => rows
  | _ => []
  end.

(** Every rowid of a table is positive and at most the table's sequence. *)
Definition db_inv (d : db) : Prop :=
  Forall (fun u => 0 < u_id u <= users_seq d) (users d)
  /\ Forall (fun r => 0 < f_id r <= feedback_seq d) (feedback d).

(** The guard of line 169. *)
Definition invalid_id (feedbackId : string) : bool :=
  (feedbackId =? "")%string || NumText.isNaN feedbackId.

(** The rowid [i] is spent: the sequence has passed it and no row holds it. *)
Definition spent (i : Z) (d : db) : Prop :=
  i <= feedback_seq d /\ forall row, In row (feedback d) -> f_id row <> i.

(** ** Binary64 arithmetic

    Rounding of a rational to the nearest binary64 number, ties to the even
    significand, in the range of the normal numbers; the sample engine below
    computes with it. *)

Module Binary64.

(** [n / d * 2 ^ k] as a fraction. *)
Definition scale2 (n d k : Z) : Z * Z :=
  if 0 <=? k then (n * 2 ^ k, d) else (n, d * 2 ^ (- k)).

Definition round64 (q : Q) : Q :=
  let n := Z.abs (Qnum q) in
  let d := Z.pos (Qden q) in
  if n =? 0 then 0%Q
  else
    let e0 := Z.log2 n - Z.log2 d in
    let '(n0, d0) := scale2 n d (- e0) in
    let e := if n0 <? d0 then e0 - 1 else e0 in
    let k := 52 - e in
    let '(N, D) := scale2 n d k in
    let m := N / D in
    let r := N mod D in
    let m' := if (D <? 2 * r) || ((2 * r =? D) && Z.odd m) then m + 1
              else m in
    let s := Z.sgn (Qnum q) in
    Qred (if 0 <=? k then (s * m') # (Z.to_pos (2 ^ k))
          else inject_Z (s * m' * 2 ^ (- k))).

(** The sum of the values taken one after another, each partial sum rounded,
    over their number, rounded. *)
Definition avg (l : list Q) : Q :=
  round64 (fold_left (fun a x => round64 (a + x)) l 0%Q
           / inject_Z (Z.of_nat (List.length l))).

(** The integer the rounded value of a numeric text is equal to, if any. *)
Definition real_of_text (s : string) : option Z :=
  match NumText.decimal_of_text s with
  | Some d =>
      let q := round64 (NumText.decimal_value d) in
      if (Z.pos (Qden q) =? 1) then Some (Qnum q) else None
  | None => None
  end.

End Binary64.

(** ** A sample instance

    A three-word analyzer, a salted stand-in for bcrypt and an engine that
    computes in binary64, to run the handlers on concrete requests. *)

Module Sample.

Definition contains (w s : string) : bool :=
  match index 0 w s with
  | Some _ => true
  | None => false
  end.

Definition compound (text : string) : Q :=
  if contains "terrible" text then (-7 # 10)
  else if contains "great" text then (7 # 10)
  else if contains "fine" text then (3 # 10)
  else 0.

Definition hash (password : string) (rounds : Z) (salt : string) : string :=
  password ++ "$" ++ salt.

Definition compare (password hash : string) : bool :=
  prefix (password ++ "$") hash.

#[export] Instance libraries : Libraries := {
  polarity_compound := compound;
  bcrypt_hash := hash;
  bcrypt_compare := compare;
  sqlite_real := Binary64.real_of_text;
  sqlite_avg := Binary64.avg
}.

Definition noon : datetime := mkDatetime (mkDate 2024 5 17) 12 0 0.
Definition next_day : datetime := mkDatetime (mkDate 2024 5 18) 9 30 0.

Definition alice : credentials := mkCredentials (Some "alice") (Some "pw123").

Definition bug_report : feedback_body :=
  mkFeedbackBody (Some 1) (Some "alice") (Some "user") (Some "bug")
                 (Some "This is terrible and broken").

Definition guest_note : feedback_body :=
  mkFeedbackBody None (Some "visitor") (Some "guest") None
                 (Some "It works fine").

Definition praise : feedback_body :=
  mkFeedbackBody (Some 1) None (Some "user") (Some "ui")
                 (Some "great job").

(** A database with one user and three feedback rows on two days. *)
Definition populated : db :=
  run empty_db
      [POST_register alice "salt1";
       POST_feedback bug_report noon;
       POST_feedback guest_note noon;
       POST_feedback praise next_day].

End Sample.

(** ** What the further properties are stated with *)

(** Comparison of pairs, the first component first. *)
Definition pair_compare {A B : Type} (ca : A -> A -> comparison)
    (cb : B -> B -> comparison) (x y : A * B) : comparison :=
  lex (ca (fst x) (fst y)) (cb (snd x) (snd y)).

(** The fields of a time in the order [datetime_compare] reads them. *)
Definition datetime_fields (t : datetime) : date * (Z * (Z * Z)) :=
  (dt_date t, (hour t, (minute t, second t))).

(** The row [a] was not created before the row [b]. *)
Definition not_older (a b : feedback_row) : Prop :=
  datetime_compare (f_created_at a) (f_created_at b) <> Lt.

Definition text_eqb (a b : option string) : bool :=
  match text_compare a b with
  | Eq => true
  | _ => false
  end.

(** The rows of feedback_type [t]. *)
Definition rows_of_type (t : option string) (rows : list feedback_row)
  : list feedback_row :=
  filter (fun r => text_eqb (f_feedback_type r) t) rows.

(** The count a summary gives a label, 0 when the label has no entry. *)
Definition summary_count (l : string) (summary : list (string * Z)) : Z :=
  match group_lookup String_as_OT.compare l summary with
  | Some n => n
  | None => 0
  end.

(** The status line of a successful answer. *)
Definition answered_200 (r : response) : bool :=
  match r with
  | Reply 200 _ => true
  | _ => false
  end.

(** The keys of the two tables: usernames are distinct and the rowids of
    each table ascend in table order. *)
Definition tables_keyed (d : db) : Prop :=
  NoDup (map u_username (users d))
  /\ StronglySorted Z.lt (map u_id (users d))
  /\ StronglySorted Z.lt (map f_id (feedback d)).

Section StoredRows.

Context {L : Libraries}.

(** What the handler and the table's CHECK let into a row. *)
Definition stored_row_ok (r : feedback_row) : Prop :=
  role_check (f_role r) = true
  /\ f_feedback_text r <> ""
  /\ f_sentiment_score r = polarity_compound (f_feedback_text r)
  /\ f_sentiment_label r = sentiment_label (f_sentiment_score r)
  /\ f_username r <> None
  /\ f_feedback_type r <> None
  /\ f_user_id r <> Some 0.

End StoredRows.

Module MoreSamples.

Definition evening : datetime := mkDatetime (mkDate 2024 5 18) 21 15 0.

Definition bob : credentials := mkCredentials (Some "bob") (Some "hunter2").

(** Two users, four rows: the rows of [Sample.populated] and a late one. *)
Definition busy : db :=
  run (L := Sample.libraries) Sample.populated
      [POST_register bob "salt2";
       POST_feedback
         (mkFeedbackBody (Some 2) (Some "bob") (Some "admin") None
                         (Some "fine by me"))
         evening].

(** The data set of the specification for the averages: an analyzer that
    scores the three texts 0.5, -0.5 and 0.2, the last one as the binary64
    number it is. *)
Definition dataset_compound (text : string) : Q :=
  if Sample.contains "good" text then (1 # 2)
  else if Sample.contains "bad" text then (-1 # 2)
  else Binary64.round64 (1 # 5).

Definition dataset : Libraries := {|
  polarity_compound := dataset_compound;
  bcrypt_hash := Sample.hash;
  bcrypt_compare := Sample.compare;
  sqlite_real := Binary64.real_of_text;
  sqlite_avg := Binary64.avg
|}.

Definition good : feedback_body :=
  mkFeedbackBody None (Some "visitor") (Some "guest") None (Some "good").

Definition bad : feedback_body :=
  mkFeedbackBody None (Some "visitor") (Some "guest") None (Some "bad").

Definition so_so : feedback_body :=
  mkFeedbackBody None (Some "visitor") (Some "guest") None (Some "so so").

End MoreSamples.

(** * Properties *)

(** ** The threshold rule *)

Lemma Qltb_lt (x y : Q) : Qltb x y = true <-> (x < y)%Q.
Proof.
  unfold Qltb. rewrite negb_true_iff. split.
  - intros H. apply Qnot_le_lt. intros Hle.
    apply Qle_bool_iff in Hle. congruence.
  - intros H. destruct (Qle_bool y x) eqn:E; [|reflexivity].
    apply Qle_bool_iff in E. exfalso. exact (Qlt_not_le _ _ H E).
Qed.

Lemma Qltb_ge (x y : Q) : Qltb x y = false <-> (y <= x)%Q.
Proof.
  unfold Qltb. rewrite negb_false_iff. apply Qle_bool_iff.
Qed.

Lemma sentiment_label_positive (c : Q) :
  sentiment_label c = "positive" <-> (3 # 10 < c)%Q.
Proof.
  unfold sentiment_label.
  destruct (Qltb (3 # 10) c) eqn:E1.
  - apply Qltb_lt in E1. tauto.
  - apply Qltb_ge in E1.
    split; [destruct (Qltb c (-3 # 10)); discriminate|].
    intros H. exfalso. exact (Qlt_not_le _ _ H E1).
Qed.

Lemma sentiment_label_negative (c : Q) :
  sentiment_label c = "negative" <-> (c < -3 # 10)%Q.
Proof.
  unfold sentiment_label.
  destruct (Qltb (3 # 10) c) eqn:E1.
  - apply Qltb_lt in E1. split; [discriminate|].
    intros H. exfalso.
    assert (H0 : (3 # 10 < -3 # 10)%Q) by (eapply Qlt_trans; eauto).
    revert H0. unfold Qlt. simpl. lia.
  - destruct (Qltb c (-3 # 10)) eqn:E2.
    + apply Qltb_lt in E2. tauto.
    + apply Qltb_ge in E2. split; [discriminate|].
      intros H. exfalso. exact (Qlt_not_le _ _ H E2).
Qed.

Lemma sentiment_label_neutral (c : Q) :
  sentiment_label c = "neutral" <-> (-3 # 10 <= c /\ c <= 3 # 10)%Q.
Proof.
  unfold sentiment_label.
  destruct (Qltb (3 # 10) c) eqn:E1.
  - apply Qltb_lt in E1. split; [discriminate|].
    intros [_ H]. exfalso. exact (Qlt_not_le _ _ E1 H).
  - apply Qltb_ge in E1. destruct (Qltb c (-3 # 10)) eqn:E2.
    + apply Qltb_lt in E2. split; [discriminate|].
      intros [H _]. exfalso. exact (Qlt_not_le _ _ E2 H).
    + apply Qltb_ge in E2. tauto.
Qed.

Example label_at_upper_threshold : sentiment_label (3 # 10) = "neutral".
Proof. reflexivity. Qed.

Example label_above_upper_threshold : sentiment_label (31 # 100) = "positive".
Proof. reflexivity. Qed.

Example label_at_lower_threshold : sentiment_label (-3 # 10) = "neutral".
Proof. reflexivity. Qed.

Example label_below_lower_threshold : sentiment_label (-31 # 100) = "negative".
Proof. reflexivity. Qed.


(** ** The recogniser and the grammar *)

Section NumericStrings.

Import NumText Grammar.

Lemma code_inj (a b : ascii) : code a = code b -> a = b.
Proof.
  unfold code. intros H. apply N2Z.inj in H.
  rewrite <- (ascii_N_embedding a), <- (ascii_N_embedding b). now rewrite H.
Qed.

Lemma code_eqb (a b : ascii) : (code a =? code b) = true <-> a = b.
Proof.
  rewrite Z.eqb_eq. split; [apply code_inj|now intros ->].
Qed.

Lemma span_spec (p : ascii -> bool) (l : list ascii) :
  l = fst (span p l) ++ snd (span p l)
  /\ forallb p (fst (span p l)) = true
  /\ (snd (span p l) = []
      \/ exists c b, snd (span p l) = c :: b /\ p c = false).
Proof.
  induction l as [|c l IH]; simpl.
  - auto.
  - destruct (p c) eqn:E.
    + destruct (span p l) as [a b]. simpl in *.
      destruct IH as (H1 & H2 & H3). rewrite E.
      repeat split; [now f_equal|exact H2|exact H3].
    + simpl. repeat split. right. exists c, l. auto.
Qed.

Lemma span_unique (p : ascii -> bool) (a b : list ascii) :
  forallb p a = true ->
  (b = [] \/ exists c b', b = c :: b' /\ p c = false) ->
  span p (a ++ b) = (a, b).
Proof.
  intros Ha Hb. induction a as [|x a IH]; simpl in *.
  - destruct Hb as [-> | (c & b' & -> & Hc)]; [reflexivity|].
    simpl. now rewrite Hc.
  - apply andb_true_iff in Ha. destruct Ha as [Hx Ha].
    rewrite Hx, (IH Ha). reflexivity.
Qed.

Lemma strip_prefix_app (w r : list ascii) : strip_prefix w (w ++ r) = Some r.
Proof.
  induction w as [|a w IH]; simpl; [reflexivity|].
  now rewrite Z.eqb_refl.
Qed.

Lemma strip_prefix_sound (w l r : list ascii) :
  strip_prefix w l = Some r -> l = w ++ r.
Proof.
  revert l. induction w as [|a w IH]; intros l; simpl.
  - intros H. now inversion H.
  - destruct l as [|b l]; [discriminate|].
    destruct (code a =? code b) eqn:E; [|discriminate].
    apply code_eqb in E. subst b. intros H. now rewrite (IH _ H).
Qed.

Lemma strip_any_sound (ws : list (list ascii)) (l r : list ascii) :
  strip_any ws l = Some r -> exists w, In w ws /\ l = w ++ r.
Proof.
  induction ws as [|w ws IH]; simpl; [discriminate|].
  destruct (strip_prefix w l) as [r'|] eqn:E.
  - intros H. inversion H; subst. exists w. split; [now left|].
    now apply strip_prefix_sound.
  - intros H. destruct (IH H) as (w' & Hin & Heq). exists w'. auto.
Qed.

Lemma white_token_start (w : list ascii) :
  In w js_white_space ->
  exists c w', w = c :: w' /\ white_start c = true.
Proof.
  intros H. cbv [js_white_space map] in H.
  repeat (destruct H as [<- | H];
          [eexists; eexists; split; reflexivity|]).
  destruct H.
Qed.

Lemma white_token_strip (w r : list ascii) :
  In w js_white_space -> strip_any js_white_space (w ++ r) = Some r.
Proof.
  intros H. cbv [js_white_space map] in H.
  repeat (destruct H as [<- | H]; [vm_compute; reflexivity|]).
  destruct H.
Qed.

Lemma strip_any_start (c : ascii) (l r : list ascii) :
  strip_any js_white_space (c :: l) = Some r -> white_start c = true.
Proof.
  intros H. apply strip_any_sound in H. destruct H as (w & Hin & Heq).
  apply white_token_start in Hin. destruct Hin as (c' & w' & -> & Hc).
  simpl in Heq. now inversion Heq; subst.
Qed.

Lemma js_skip_stops (fuel : nat) (l : list ascii) :
  stops l -> js_skip fuel l = l.
Proof.
  intros H. destruct fuel as [|fuel]; [reflexivity|]. cbn [js_skip].
  destruct H as [-> | (c & l' & -> & Hc)]; [reflexivity|].
  destruct (strip_any js_white_space (c :: l')) as [r|] eqn:E;
    [|reflexivity].
  apply strip_any_start in E. congruence.
Qed.

Lemma js_skip_sound (fuel : nat) (l : list ascii) :
  exists pre, white pre /\ l = pre ++ js_skip fuel l.
Proof.
  revert l. induction fuel as [|fuel IH]; intros l; cbn [js_skip].
  - exists []. split; [constructor|reflexivity].
  - destruct (strip_any js_white_space l) as [r|] eqn:E.
    + apply strip_any_sound in E. destruct E as (w & Hin & ->).
      destruct (IH r) as (pre & Hpre & Hr).
      exists (w ++ pre). split; [now constructor|].
      rewrite <- app_assoc. now rewrite <- Hr.
    + exists []. split; [constructor|reflexivity].
Qed.

Lemma js_skip_white (pre l : list ascii) (fuel : nat) :
  white pre -> stops l -> (List.length (pre ++ l) <= fuel)%nat ->
  js_skip fuel (pre ++ l) = l.
Proof.
  intros Hpre Hl. revert fuel.
  induction Hpre as [|w pre Hw Hpre IH]; intros fuel Hlen.
  - simpl. now apply js_skip_stops.
  - destruct (white_token_start w Hw) as (c & w' & -> & _).
    rewrite <- app_assoc in *. simpl in Hlen.
    destruct fuel as [|fuel]; [lia|].
    cbn [js_skip]. rewrite (white_token_strip (c :: w') _ Hw).
    apply IH. rewrite length_app in *. simpl in Hlen.
    rewrite length_app in Hlen. lia.
Qed.

Lemma js_trim_start_white (pre l : list ascii) :
  white pre -> stops l -> js_trim_start (pre ++ l) = l.
Proof.
  intros Hpre Hl. unfold js_trim_start. now apply js_skip_white.
Qed.

Lemma js_all_white_spec (l : list ascii) : js_all_white l = true <-> white l.
Proof.
  unfold js_all_white. split.
  - intros H. destruct (js_skip_sound (List.length l) l) as (pre & Hpre & Heq).
    fold (js_trim_start l) in Heq.
    destruct (js_trim_start l); [|discriminate].
    rewrite app_nil_r in Heq. now subst.
  - intros H. rewrite <- (app_nil_r l).
    rewrite js_trim_start_white; [reflexivity|exact H|now left].
Qed.

Lemma white_app (a b : list ascii) : white a -> white b -> white (a ++ b).
Proof.
  intros Ha Hb. induction Ha as [|w a Hw Ha IH]; [exact Hb|].
  rewrite <- app_assoc. now constructor.
Qed.

Lemma white_stops_or_starts (l : list ascii) :
  white l -> l = [] \/ exists c l', l = c :: l' /\ white_start c = true.
Proof.
  intros H. destruct H as [|w l Hw Hl]; [now left|].
  destruct (white_token_start w Hw) as (c & w' & -> & Hc).
  right. exists c, (w' ++ l). auto.
Qed.

(** No white space starts with a character of a literal. *)
Lemma white_start_not_literal (c : ascii) :
  white_start c = true ->
  is_digit c = false /\ hex_digit c = false /\ oct_digit c = false
  /\ bin_digit c = false /\ is_e c = false
  /\ (code c =? 46) = false /\ (code c =? 43) = false
  /\ (code c =? 45) = false /\ (code c =? 73) = false.
Proof.
  unfold white_start, is_digit, hex_digit, oct_digit, bin_digit, is_e,
    is_digit.
  intros H. repeat split;
    repeat match goal with
           | |- (_ || _) = false => apply orb_false_iff; split
           | |- (_ && _) = false => apply andb_false_iff
           end;
    try (apply Z.eqb_neq; intros E; rewrite E in H; discriminate H);
    destruct (48 <=? code c) eqn:E1; try (now left);
    try (destruct (65 <=? code c) eqn:E2; try (now left));
    try (destruct (97 <=? code c) eqn:E3; try (now left));
    right; apply Z.leb_gt;
    repeat match goal with
           | E : (_ <=? _) = true |- _ => apply Z.leb_le in E
           end;
    repeat (apply orb_true_iff in H; destruct H as [H | H]);
    try (apply andb_true_iff in H; destruct H as [H H'];
         apply Z.leb_le in H, H');
    try apply Z.eqb_eq in H; lia.
Qed.


Lemma white_fails (p : ascii -> bool) (l : list ascii) :
  (forall c, white_start c = true -> p c = false) ->
  white l -> l = [] \/ exists c b, l = c :: b /\ p c = false.
Proof.
  intros Hp H. destruct (white_stops_or_starts l H) as [-> | (c & b & -> & Hc)];
    [now left|].
  right. exists c, b. auto.
Qed.

Lemma is_nil_false (l : list ascii) : negb (is_nil l) = true <-> l <> [].
Proof. destruct l; simpl; split; congruence. Qed.

Lemma strip_sign_sign (l : list ascii) :
  exists s, sign_opt s /\ l = s ++ strip_sign l.
Proof.
  destruct l as [|c l]; [exists []; split; [now left|reflexivity]|].
  unfold strip_sign.
  destruct (code c =? 43) eqn:E1; [|destruct (code c =? 45) eqn:E2].
  - apply (code_eqb c "+"%char) in E1. subst c.
    exists ["+"%char]. split; [right; now left|reflexivity].
  - apply (code_eqb c "-"%char) in E2. subst c.
    exists ["-"%char]. split; [right; now right|reflexivity].
  - exists []. split; [now left|reflexivity].
Qed.

Lemma strip_sign_app (s l : list ascii) :
  sign_opt s ->
  (s = [] -> exists c l', l = c :: l' /\ (code c =? 43) = false
                          /\ (code c =? 45) = false) ->
  strip_sign (s ++ l) = l.
Proof.
  intros [-> | [-> | ->]] H; [|reflexivity|reflexivity].
  destruct (H eq_refl) as (c & l' & -> & H1 & H2).
  simpl. now rewrite H1, H2.
Qed.

Lemma digit_not_sign (c : ascii) :
  is_digit c = true -> (code c =? 43) = false /\ (code c =? 45) = false.
Proof.
  unfold is_digit. intros H. apply andb_true_iff in H.
  destruct H as [H1 H2]. apply Z.leb_le in H1, H2.
  split; apply Z.eqb_neq; lia.
Qed.

Lemma digits_head (ds : list ascii) :
  digits ds -> ds <> [] ->
  exists c ds', ds = c :: ds' /\ is_digit c = true.
Proof.
  destruct ds as [|c ds]; [congruence|]. intros H _.
  unfold digits in H. simpl in H. apply andb_true_iff in H.
  exists c, ds. tauto.
Qed.

Lemma js_exponent_then_white_spec (l : list ascii) :
  js_exponent_then_white l = true
  <-> exists e post, l = e ++ post /\ exponent_opt e /\ white post.
Proof.
  split.
  - destruct l as [|c l]; [exists [], []; repeat split; [now left|constructor]|].
    unfold js_exponent_then_white.
    destruct (is_e c) eqn:Ec.
    + destruct (strip_sign_sign l) as (s & Hs & Hl).
      pose proof (span_spec is_digit (strip_sign l)) as (Hsp & Hds & _).
      destruct (span is_digit (strip_sign l)) as [ds rest]. simpl in *.
      intros H. apply andb_true_iff in H. destruct H as [Hn Hw].
      apply is_nil_false in Hn. apply js_all_white_spec in Hw.
      exists (c :: s ++ ds), rest. split.
      * simpl. rewrite <- app_assoc. f_equal. now rewrite <- Hsp.
      * split; [|exact Hw]. right. exists c, s, ds. auto.
    + intros H. apply js_all_white_spec in H.
      exists [], (c :: l). repeat split; [now left|exact H].
  - intros (e & post & -> & He & Hpost).
    destruct He as [-> | (c & s & ds & -> & Hc & Hs & Hne & Hds)].
    + simpl. destruct post as [|c post]; [reflexivity|].
      unfold js_exponent_then_white.
      destruct (white_stops_or_starts _ Hpost) as [H | (c' & l' & H & Hc)];
        [discriminate|].
      inversion H; subst.
      destruct (white_start_not_literal _ Hc) as (_ & _ & _ & _ & He & _).
      rewrite He. now apply js_all_white_spec.
    + cbn [app js_exponent_then_white]. rewrite Hc.
      rewrite <- app_assoc, strip_sign_app; [|exact Hs|].
      * rewrite span_unique; [|exact Hds|].
        -- apply andb_true_iff. split; [now apply is_nil_false|].
           now apply js_all_white_spec.
        -- apply white_fails; [|exact Hpost].
           intros x Hx. now destruct (white_start_not_literal _ Hx).
      * intros _. destruct (digits_head ds Hds Hne) as (x & ds' & -> & Hx).
        exists x, (ds' ++ post). split; [reflexivity|].
        now apply digit_not_sign.
Qed.

(** What an optional exponent followed by white space starts with. *)
Lemma exponent_white_head (e post : list ascii) :
  exponent_opt e -> white post ->
  e ++ post = []
  \/ exists c l, e ++ post = c :: l /\ is_digit c = false
                 /\ (code c =? 46) = false.
Proof.
  intros [-> | (c & s & ds & -> & Hc & _)] Hpost.
  - simpl. destruct (white_stops_or_starts _ Hpost) as [-> | (c & l & -> & Hc)];
      [now left|].
    right. exists c, l.
    destruct (white_start_not_literal _ Hc) as (H1 & _ & _ & _ & _ & H2 & _).
    auto.
  - right. exists c, ((s ++ ds) ++ post). split; [reflexivity|].
    unfold is_e in Hc. unfold is_digit.
    apply orb_true_iff in Hc. destruct Hc as [Hc | Hc];
      apply Z.eqb_eq in Hc; rewrite Hc; split; reflexivity.
Qed.

Lemma strip_infinity_none (c : ascii) (l : list ascii) :
  (code c =? 73) = false -> strip_prefix (bytes "Infinity") (c :: l) = None.
Proof.
  intros H. change (bytes "Infinity") with ("I"%char :: bytes "nfinity").
  cbn [strip_prefix]. change (code "I"%char) with 73.
  now rewrite Z.eqb_sym, H.
Qed.

Lemma digit_not_I (c : ascii) : is_digit c = true -> (code c =? 73) = false.
Proof.
  unfold is_digit. intros H. apply andb_true_iff in H.
  destruct H as [H1 H2]. apply Z.leb_le in H1, H2. apply Z.eqb_neq. lia.
Qed.

Lemma js_unsigned_then_white_spec (l : list ascii) :
  js_unsigned_then_white l = true
  <-> exists u post, l = u ++ post /\ unsigned_decimal u /\ white post.
Proof.
  unfold js_unsigned_then_white. split.
  - destruct (strip_prefix (bytes "Infinity") l) as [rest|] eqn:Einf.
    + apply strip_prefix_sound in Einf. intros H.
      apply js_all_white_spec in H.
      exists (bytes "Infinity"), rest. repeat split; [exact Einf|now left|exact H].
    + pose proof (span_spec is_digit l) as (Hl & Hi & _).
      destruct (span is_digit l) as [i r1]. simpl in *.
      destruct r1 as [|c r2].
      * intros H. apply is_nil_false in H.
        exists i, []. repeat split; [exact Hl| |constructor].
        right. right. exists i, []. rewrite app_nil_r.
        repeat split; [exact Hi|exact H|now left].
      * destruct (code c =? 46) eqn:Ec.
        -- apply (code_eqb c "."%char) in Ec. subst c.
           pose proof (span_spec is_digit r2) as (Hr2 & Hf & _).
           destruct (span is_digit r2) as [f r3]. simpl in *.
           intros H. apply andb_true_iff in H. destruct H as [Hne He].
           apply js_exponent_then_white_spec in He.
           destruct He as (e & post & -> & He & Hpost).
           exists (i ++ "."%char :: f ++ e), post. split.
           { rewrite Hl, Hr2. rewrite <- !app_assoc. simpl.
             now rewrite <- app_assoc. }
           split; [|exact Hpost]. right. left. exists i, f, e.
           repeat split; try assumption.
           apply orb_true_iff in Hne.
           destruct Hne as [H | H]; apply is_nil_false in H; auto.
        -- intros H. apply andb_true_iff in H. destruct H as [Hne He].
           apply is_nil_false in Hne.
           apply js_exponent_then_white_spec in He.
           destruct He as (e & post & Heq & He & Hpost).
           exists (i ++ e), post. split.
           { rewrite Hl, Heq. now rewrite app_assoc. }
           split; [|exact Hpost]. right. right. exists i, e. auto.
  - intros (u & post & -> & Hu & Hpost).
    destruct Hu as [-> | [(i & f & e & -> & Hi & Hf & Hne & He)
                         | (i & e & -> & Hi & Hne & He)]].
    + rewrite strip_prefix_app. now apply js_all_white_spec.
    + assert (Hnot : strip_prefix (bytes "Infinity")
                       ((i ++ "."%char :: f ++ e) ++ post) = None).
      { destruct i as [|c i]; [now apply strip_infinity_none|].
        unfold digits in Hi. simpl in Hi. apply andb_true_iff in Hi.
        destruct Hi as [Hc _]. cbn [app].
        now apply strip_infinity_none, digit_not_I. }
      rewrite Hnot. rewrite <- app_assoc. cbn [app].
      rewrite span_unique; [|exact Hi|right; eexists; eexists; split;
                                        [reflexivity|reflexivity]].
      cbn [code]. change (code "."%char =? 46) with true. cbv iota.
      rewrite <- app_assoc.
      destruct (exponent_white_head e post He Hpost)
        as [Hnil | (c & l & Heq & Hc & _)].
      * rewrite Hnil, span_unique; [|exact Hf|now left].
        apply app_eq_nil in Hnil. destruct Hnil as [-> ->].
        apply andb_true_iff. split; [|reflexivity].
        apply orb_true_iff.
        destruct Hne as [H | H]; [left|right]; now apply is_nil_false.
      * rewrite Heq, span_unique; [|exact Hf|right; now exists c, l].
        rewrite <- Heq. apply andb_true_iff. split.
        -- apply orb_true_iff.
           destruct Hne as [H | H]; [left|right]; now apply is_nil_false.
        -- apply js_exponent_then_white_spec. now exists e, post.
    + destruct (digits_head i Hi Hne) as (c & i' & -> & Hc).
      assert (Hnot : strip_prefix (bytes "Infinity")
                       (((c :: i') ++ e) ++ post) = None).
      { cbn [app]. now apply strip_infinity_none, digit_not_I. }
      rewrite Hnot. rewrite <- app_assoc.
      destruct (exponent_white_head e post He Hpost)
        as [Hnil | (x & l & Heq & Hx & Hpoint)].
      * rewrite Hnil, span_unique; [|exact Hi|now left]. reflexivity.
      * rewrite Heq, span_unique; [|exact Hi|right; now exists x, l].
        rewrite Hpoint. rewrite <- Heq. apply andb_true_iff. split.
        -- reflexivity.
        -- apply js_exponent_then_white_spec. now exists e, post.
Qed.


(** A literal starts with a character that is no sign, unless it is its own
    sign, and that no white space starts with. *)
Lemma unsigned_decimal_head (u : list ascii) :
  unsigned_decimal u ->
  exists c u', u = c :: u' /\ (code c =? 43) = false
               /\ (code c =? 45) = false /\ white_start c = false.
Proof.
  assert (Hd : forall c, is_digit c = true ->
                         (code c =? 43) = false /\ (code c =? 45) = false
                         /\ white_start c = false).
  { intros c Hc. destruct (digit_not_sign c Hc) as [H1 H2].
    repeat split; try assumption.
    destruct (white_start c) eqn:E; [|reflexivity].
    destruct (white_start_not_literal c E) as [H _]. congruence. }
  intros [-> | [(i & f & e & -> & Hi & _) | (i & e & -> & Hi & Hne & _)]].
  - eexists; eexists. split; [reflexivity|]. repeat split.
  - destruct i as [|c i].
    + eexists; eexists. split; [reflexivity|]. repeat split.
    + unfold digits in Hi. simpl in Hi. apply andb_true_iff in Hi.
      exists c, (i ++ "."%char :: f ++ e). split; [reflexivity|].
      apply Hd, Hi.
  - destruct (digits_head i Hi Hne) as (c & i' & -> & Hc).
    exists c, (i' ++ e). split; [reflexivity|]. now apply Hd.
Qed.

Lemma js_decimal_then_white_spec (l : list ascii) :
  js_unsigned_then_white (strip_sign l) = true
  <-> exists b post, l = b ++ post /\ decimal_literal b /\ white post.
Proof.
  rewrite js_unsigned_then_white_spec. split.
  - intros (u & post & Heq & Hu & Hpost).
    destruct (strip_sign_sign l) as (s & Hs & Hl).
    exists (s ++ u), post. split.
    + rewrite Hl at 1. rewrite Heq. now rewrite app_assoc.
    + split; [|exact Hpost]. exists s, u. auto.
  - intros (b & post & -> & (s & u & -> & Hs & Hu) & Hpost).
    exists u, post. split; [|auto].
    rewrite <- app_assoc. apply strip_sign_app; [exact Hs|].
    intros _. destruct (unsigned_decimal_head u Hu) as (c & u' & -> & H1 & H2 & _).
    exists c, (u' ++ post). auto.
Qed.

Lemma js_digits_then_white (p : ascii -> bool) (l : list ascii) :
  (forall c, white_start c = true -> p c = false) ->
  (let '(ds, rest) := span p l in negb (is_nil ds) && js_all_white rest) = true
  <-> exists ds post, l = ds ++ post /\ ds <> [] /\ forallb p ds = true
                      /\ white post.
Proof.
  intros Hp. split.
  - pose proof (span_spec p l) as (Hl & Hds & _).
    destruct (span p l) as [ds rest]. simpl in *. intros H.
    apply andb_true_iff in H. destruct H as [Hn Hw].
    apply is_nil_false in Hn. apply js_all_white_spec in Hw.
    exists ds, rest. auto.
  - intros (ds & post & -> & Hne & Hds & Hpost).
    rewrite span_unique; [|exact Hds|now apply white_fails].
    apply andb_true_iff. split; [now apply is_nil_false|].
    now apply js_all_white_spec.
Qed.

Lemma js_non_decimal_then_white_spec (l : list ascii) :
  js_non_decimal_then_white l = true
  <-> exists b post, l = b ++ post /\ non_decimal_literal b /\ white post.
Proof.
  assert (Hhex : forall c, white_start c = true -> hex_digit c = false)
    by (intros c Hc; now destruct (white_start_not_literal c Hc)
                       as (_ & H & _)).
  assert (Hoct : forall c, white_start c = true -> oct_digit c = false)
    by (intros c Hc; now destruct (white_start_not_literal c Hc)
                       as (_ & _ & H & _)).
  assert (Hbin : forall c, white_start c = true -> bin_digit c = false)
    by (intros c Hc; now destruct (white_start_not_literal c Hc)
                       as (_ & _ & _ & H & _)).
  unfold js_non_decimal_then_white. split.
  - destruct l as [|z [|c l]]; try discriminate.
    destruct (code z =? 48) eqn:Ez; [|discriminate].
    apply (code_eqb z "0"%char) in Ez. subst z. cbn [negb].
    destruct ((code c =? 120) || (code c =? 88)) eqn:Ex;
      [|destruct ((code c =? 111) || (code c =? 79)) eqn:Eo;
        [|destruct ((code c =? 98) || (code c =? 66)) eqn:Eb;
          [|discriminate]]];
      intros H;
      [apply (js_digits_then_white hex_digit l Hhex) in H
      |apply (js_digits_then_white oct_digit l Hoct) in H
      |apply (js_digits_then_white bin_digit l Hbin) in H];
      destruct H as (ds & post & -> & Hne & Hds & Hpost);
      exists ("0"%char :: c :: ds), post;
      (split; [reflexivity|]); (split; [|exact Hpost]);
      exists c, ds; (split; [reflexivity|]); (split; [exact Hne|]).
    + left. split; [|exact Hds]. apply orb_true_iff in Ex.
      destruct Ex as [E | E]; apply Z.eqb_eq in E; auto.
    + right. left. split; [|exact Hds]. apply orb_true_iff in Eo.
      destruct Eo as [E | E]; apply Z.eqb_eq in E; auto.
    + right. right. split; [|exact Hds]. apply orb_true_iff in Eb.
      destruct Eb as [E | E]; apply Z.eqb_eq in E; auto.
  - intros (b & post & -> & (c & ds & -> & Hne & Hcases) & Hpost).
    cbn [app]. change (code "0"%char =? 48) with true. cbn [negb].
    destruct Hcases as [[Hc Hds] | [[Hc Hds] | [Hc Hds]]];
      destruct Hc as [Hc | Hc]; rewrite Hc; cbn [Z.eqb Pos.eqb orb];
      cbv iota;
      [apply (js_digits_then_white hex_digit _ Hhex)
      |apply (js_digits_then_white hex_digit _ Hhex)
      |apply (js_digits_then_white oct_digit _ Hoct)
      |apply (js_digits_then_white oct_digit _ Hoct)
      |apply (js_digits_then_white bin_digit _ Hbin)
      |apply (js_digits_then_white bin_digit _ Hbin)];
      exists ds, post; auto.
Qed.

Lemma numeric_literal_head (b : list ascii) :
  numeric_literal b -> exists c b', b = c :: b' /\ white_start c = false.
Proof.
  intros [(s & u & -> & Hs & Hu) | (c & ds & -> & _)].
  - destruct (unsigned_decimal_head u Hu) as (c & u' & -> & _ & _ & Hc).
    destruct Hs as [-> | [-> | ->]]; eexists; eexists;
      (split; [reflexivity|]); [exact Hc|reflexivity|reflexivity].
  - eexists; eexists. split; reflexivity.
Qed.

(** [isNaN] accepts exactly the strings of the grammar. *)
Lemma isNaN_spec (s : string) :
  isNaN s = false <-> StringNumericLiteral s.
Proof.
  unfold isNaN, StringNumericLiteral. split.
  - destruct (js_skip_sound (List.length (bytes s)) (bytes s))
      as (pre & Hpre & Heq).
    fold (js_trim_start (bytes s)) in Heq.
    destruct (js_trim_start (bytes s)) as [|c l] eqn:E.
    + intros _. exists pre, [], []. rewrite Heq.
      repeat split; [exact Hpre|constructor|now left].
    + intros H. apply negb_false_iff, orb_true_iff in H.
      destruct H as [H | H];
        [apply js_decimal_then_white_spec in H
        |apply js_non_decimal_then_white_spec in H];
        destruct H as (b & post & Hl & Hb & Hpost);
        exists pre, b, post; rewrite Heq, Hl;
        (split; [reflexivity|]); (split; [exact Hpre|]);
        (split; [exact Hpost|]); right; [now left|now right].
  - intros (pre & body & post & Heq & Hpre & Hpost & [-> | Hbody]).
    + rewrite Heq. simpl. rewrite <- (app_nil_r (pre ++ post)).
      rewrite js_trim_start_white;
        [reflexivity|now apply white_app|now left].
    + rewrite Heq.
      destruct (numeric_literal_head body Hbody) as (c & b' & Hb & Hc).
      rewrite js_trim_start_white; [|exact Hpre|].
      * destruct (body ++ post) as [|x l] eqn:E; [subst body; discriminate|].
        rewrite <- E. apply negb_false_iff, orb_true_iff.
        destruct Hbody as [Hd | Hn]; [left|right].
        -- apply js_decimal_then_white_spec. now exists body, post.
        -- apply js_non_decimal_then_white_spec. now exists body, post.
      * right. subst body. exists c, (b' ++ post). auto.
Qed.

End NumericStrings.

(** ** The decimal text of an integer *)

Section DecimalTexts.

Import NumText.

Lemma digit_char_cases (m : Z) :
  0 <= m < 10 ->
  is_digit (digit_char m) = true
  /\ code (digit_char m) - 48 = m
  /\ is_space (digit_char m) = false
  /\ (forall l, strip_sign (digit_char m :: l) = digit_char m :: l)
  /\ (forall l, starts_minus (digit_char m :: l) = false)
  /\ (forall l, strip_any js_white_space (digit_char m :: l) = None).
Proof.
  intros H.
  assert (Hm : m = 0 \/ m = 1 \/ m = 2 \/ m = 3 \/ m = 4 \/ m = 5 \/ m = 6
               \/ m = 7 \/ m = 8 \/ m = 9) by lia.
  repeat (destruct Hm as [-> | Hm]); try subst m; repeat split.
Qed.

Lemma digits_value_snoc (ds : list ascii) (c : ascii) :
  digits_value (ds ++ [c]) = 10 * digits_value ds + (code c - 48).
Proof. unfold digits_value. now rewrite fold_left_app. Qed.

Lemma digits_of_app (fuel : nat) (n : Z) (acc : list ascii) :
  digits_of fuel n acc = digits_of fuel n [] ++ acc.
Proof.
  revert n acc. induction fuel as [|fuel IH]; intros n acc; [reflexivity|].
  simpl. destruct (n <? 10); [reflexivity|].
  rewrite (IH _ (_ :: acc)), (IH _ [_]), <- app_assoc. reflexivity.
Qed.

(** The digits written for [n] are digits, at least one, and denote [n]. *)
Lemma digits_of_spec (fuel : nat) (n : Z) :
  0 <= n < 2 ^ Z.of_nat fuel -> (0 < fuel)%nat ->
  forallb is_digit (digits_of fuel n []) = true
  /\ digits_value (digits_of fuel n []) = n
  /\ exists m rest, 0 <= m < 10 /\ digits_of fuel n [] = digit_char m :: rest.
Proof.
  revert n. induction fuel as [|fuel IH]; intros n Hn Hf; [lia|].
  assert (Hd : 0 <= n mod 10 < 10) by (apply Z.mod_pos_bound; lia).
  destruct (digit_char_cases _ Hd) as (Hdig & Hcode & _).
  cbn [digits_of]. destruct (n <? 10) eqn:E.
  - apply Z.ltb_lt in E. split; [|split].
    + cbn [forallb]. now rewrite Hdig.
    + unfold digits_value. cbn [fold_left]. rewrite Hcode.
      rewrite Z.mod_small; lia.
    + exists (n mod 10), []. auto.
  - apply Z.ltb_ge in E.
    assert (Hfuel : (0 < fuel)%nat).
    { destruct fuel; [|lia]. simpl in Hn. lia. }
    assert (Hq : 0 <= n / 10 < 2 ^ Z.of_nat fuel).
    { split; [apply Z.div_pos; lia|].
      apply Z.div_lt_upper_bound; [lia|].
      rewrite Nat2Z.inj_succ, Z.pow_succ_r in Hn; lia. }
    destruct (IH _ Hq Hfuel) as (Hall & Hval & m & rest & Hm & Hhead).
    rewrite digits_of_app. split; [|split].
    + rewrite forallb_app, Hall. cbn [forallb]. now rewrite Hdig.
    + rewrite digits_value_snoc, Hval, Hcode.
      pose proof (Z.div_mod n 10). lia.
    + exists m, (rest ++ [digit_char (n mod 10)]). split; [exact Hm|].
      now rewrite Hhead.
Qed.

Lemma span_all (p : ascii -> bool) (l : list ascii) :
  forallb p l = true -> span p l = (l, []).
Proof.
  induction l as [|c l IH]; [reflexivity|]. simpl.
  intros H. apply andb_true_iff in H. destruct H as [-> H].
  now rewrite (IH H).
Qed.

Lemma magnitude_digits_spec (i : Z) :
  forallb is_digit (magnitude_digits i) = true
  /\ digits_value (magnitude_digits i) = Z.abs i
  /\ exists m rest,
       0 <= m < 10 /\ magnitude_digits i = digit_char m :: rest.
Proof.
  apply digits_of_spec; [|lia]. split; [lia|].
  destruct (Z.eq_dec (Z.abs i) 0) as [H0|H0].
  - rewrite H0. reflexivity.
  - rewrite Nat2Z.inj_succ, Z2Nat.id by apply Z.log2_nonneg.
    apply Z.log2_spec. lia.
Qed.

Lemma bytes_text_of_int (i : Z) :
  bytes (text_of_int i)
  = if i <? 0 then "-"%char :: magnitude_digits i else magnitude_digits i.
Proof.
  unfold bytes, text_of_int. rewrite list_ascii_of_string_of_list_ascii.
  reflexivity.
Qed.

(** SQLite reads the decimal text of [i] as an integer literal of the digits
    of its magnitude. *)
Lemma decimal_of_text_of_int (i : Z) :
  decimal_of_text (text_of_int i)
  = Some (mkDecimal (i <? 0) (magnitude_digits i) false [] None).
Proof.
  unfold decimal_of_text. rewrite bytes_text_of_int.
  destruct (magnitude_digits_spec i) as (Hall & _ & m & rest & Hm & Hhead).
  destruct (digit_char_cases _ Hm) as (_ & _ & Hsp & Hsign & Hminus & _).
  assert (Hread : forall neg l,
             strip_sign l = magnitude_digits i ->
             starts_minus l = neg ->
             read_decimal l
             = Some (mkDecimal neg (magnitude_digits i) false [] None, [])).
  { intros neg l Hs Hn. unfold read_decimal. rewrite Hs, (span_all _ _ Hall).
    rewrite Hhead at 1. cbn [is_nil andb read_exponent]. now rewrite Hn. }
  destruct (i <? 0).
  - cbn [skip_spaces is_space code]. change (is_space "-"%char) with false.
    cbn iota. rewrite (Hread true); reflexivity.
  - rewrite Hhead at 1. cbn [skip_spaces]. rewrite Hsp. rewrite <- Hhead.
    rewrite (Hread false); [reflexivity| |].
    + rewrite Hhead. apply Hsign.
    + rewrite Hhead. apply Hminus.
Qed.

Lemma int64_of_text_of_int (i : Z) :
  int64 i ->
  int64_of_decimal (mkDecimal (i <? 0) (magnitude_digits i) false [] None)
  = Some i.
Proof.
  unfold int64. intros Hi. unfold int64_of_decimal.
  cbn [dec_point dec_exp dec_neg dec_int].
  destruct (magnitude_digits_spec i) as (_ & -> & _).
  assert (Hv : (if i <? 0 then - Z.abs i else Z.abs i) = i).
  { destruct (i <? 0) eqn:E; [apply Z.ltb_lt in E|apply Z.ltb_ge in E]; lia. }
  rewrite Hv.
  destruct (- 2 ^ 63 <=? i) eqn:E1; [|apply Z.leb_gt in E1; lia].
  destruct (i <? 2 ^ 63) eqn:E2; [|apply Z.ltb_ge in E2; lia].
  reflexivity.
Qed.

(** The decimal text of an integer is a StringNumericLiteral, and not the
    empty string. *)
Lemma text_of_int_numeric (i : Z) :
  Grammar.StringNumericLiteral (text_of_int i) /\ text_of_int i <> "".
Proof.
  destruct (magnitude_digits_spec i) as (Hall & _ & m & rest & Hm & Hhead).
  split.
  - exists [], (bytes (text_of_int i)), []. rewrite app_nil_r.
    split; [reflexivity|]. split; [constructor|]. split; [constructor|].
    right. left. rewrite bytes_text_of_int.
    exists (if i <? 0 then ["-"%char] else []), (magnitude_digits i).
    split; [destruct (i <? 0); reflexivity|].
    split; [destruct (i <? 0); unfold Grammar.sign_opt; auto|].
    right. right. exists (magnitude_digits i), [].
    rewrite app_nil_r. split; [reflexivity|]. split; [exact Hall|].
    split; [rewrite Hhead; discriminate|]. now left.
  - intros He. pose proof (bytes_text_of_int i) as Hb. rewrite He in Hb.
    rewrite Hhead in Hb. destruct (i <? 0); discriminate.
Qed.

End DecimalTexts.

(** [isNaN] lets the decimal text of an integer through. *)
Lemma isNaN_text_of_int (i : Z) :
  NumText.isNaN (NumText.text_of_int i) = false
  /\ NumText.text_of_int i <> "".
Proof.
  destruct (text_of_int_numeric i) as [H1 H2].
  split; [now apply isNaN_spec|exact H2].
Qed.

Section EngineTexts.

Context {L : Libraries}.

(** The decimal text of an integer of 64 bits equals that integer and no
    other. *)
Lemma int_eq_text_of_int (i j : Z) :
  int64 i -> int_eq_text j (NumText.text_of_int i) = (i =? j).
Proof.
  intros Hi. unfold int_eq_text.
  now rewrite decimal_of_text_of_int, int64_of_text_of_int.
Qed.

(** A text equals at most one integer. *)
Lemma int_eq_text_inj (s : string) (i j : Z) :
  int_eq_text i s = true -> int_eq_text j s = true -> i = j.
Proof.
  unfold int_eq_text.
  destruct (NumText.decimal_of_text s) as [dc|]; [|discriminate].
  destruct (NumText.int64_of_decimal dc) as [v|].
  - intros H1 H2. apply Z.eqb_eq in H1, H2. congruence.
  - destruct (sqlite_real s) as [v|]; [|discriminate].
    intros H1 H2. apply Z.eqb_eq in H1, H2. congruence.
Qed.

(** A text the engine does not read as a number equals no integer. *)
Lemma int_eq_text_not_numeric (s : string) (i : Z) :
  NumText.decimal_of_text s = None -> int_eq_text i s = false.
Proof. unfold int_eq_text. now intros ->. Qed.

End EngineTexts.

(** ** JSON integers *)

Lemma binary64_of_Z_zero (z : Z) : Js.binary64_of_Z z = 0 <-> z = 0.
Proof.
  unfold Js.binary64_of_Z.
  destruct (Z.log2 (Z.abs z) - 52 <=? 0) eqn:E; [tauto|].
  apply Z.leb_gt in E. split; [|intros ->; reflexivity].
  intros H. exfalso.
  assert (Ha : 0 < Z.abs z).
  { destruct (Z.eq_dec (Z.abs z) 0) as [H0|]; [|lia].
    rewrite H0 in E. simpl in E. lia. }
  set (e := Z.log2 (Z.abs z) - 52) in *.
  assert (Hp : 0 < 2 ^ e) by (apply Z.pow_pos_nonneg; lia).
  assert (Hq : 0 < Z.abs z / 2 ^ e).
  { apply Z.div_str_pos. split; [exact Hp|].
    pose proof (Z.log2_spec _ Ha) as [Hl _].
    apply Z.le_trans with (2 ^ Z.log2 (Z.abs z)); [|exact Hl].
    apply Z.pow_le_mono_r; lia. }
  assert (Hq' : 0 < (if (2 ^ (e - 1) <? Z.abs z mod 2 ^ e)
                        || ((Z.abs z mod 2 ^ e =? 2 ^ (e - 1))
                            && Z.odd (Z.abs z / 2 ^ e))
                     then Z.abs z / 2 ^ e + 1 else Z.abs z / 2 ^ e)).
  { destruct (_ || _); lia. }
  apply Z.mul_eq_0 in H.
  destruct H as [H|H]; [apply Z.sgn_null_iff in H; lia|].
  apply Z.mul_eq_0 in H. lia.
Qed.

(** The integers of magnitude up to 2^53 are binary64 numbers. *)
Lemma binary64_of_Z_exact (z : Z) :
  Z.abs z <= 2 ^ 53 -> Js.binary64_of_Z z = z.
Proof.
  intros H. unfold Js.binary64_of_Z.
  destruct (Z.log2 (Z.abs z) - 52 <=? 0) eqn:E; [reflexivity|].
  apply Z.leb_gt in E.
  assert (H0 : Z.abs z = 2 ^ 53).
  { destruct (Z.eq_dec (Z.abs z) (2 ^ 53)); [assumption|].
    assert (Hlt : Z.abs z < 2 ^ 53) by lia.
    destruct (Z.eq_dec (Z.abs z) 0) as [Hz|];
      [rewrite Hz in E; simpl in E; lia|].
    apply Z.log2_lt_pow2 in Hlt; lia. }
  destruct (Z.abs_spec z) as [[_ Hz]|[_ Hz]]; rewrite Hz in H0.
  - subst z. reflexivity.
  - assert (Hn : z = - 2 ^ 53) by lia. subst z. reflexivity.
Qed.

Lemma json_value_of_Z (z : Z) :
  Js.finite_json z = true -> Js.json_value (Js.json_int_of_Z z) = z.
Proof.
  intros H. unfold Js.json_int_of_Z.
  generalize (@eq_refl bool (Js.finite_json z)).
  generalize (Js.finite_json z) at 2 3. intros b. destruct b; [reflexivity|].
  intros E. congruence.
Qed.

Example text_of_int_42 : NumText.text_of_int 42 = "42".
Proof. reflexivity. Qed.

Example text_of_int_neg : NumText.text_of_int (-7) = "-7".
Proof. reflexivity. Qed.

Example isNaN_digits : NumText.isNaN "12" = false.
Proof. reflexivity. Qed.

Example isNaN_word : NumText.isNaN "abc" = true.
Proof. reflexivity. Qed.

Example isNaN_trailing_letters : NumText.isNaN "12abc" = true.
Proof. reflexivity. Qed.

Example isNaN_hexadecimal : NumText.isNaN "0x1F" = false.
Proof. reflexivity. Qed.

Example isNaN_infinity : NumText.isNaN "-Infinity" = false.
Proof. reflexivity. Qed.

Example isNaN_bare_exponent : NumText.isNaN "1e" = true.
Proof. reflexivity. Qed.

Example isNaN_blank : NumText.isNaN "  " = false.
Proof. reflexivity. Qed.

Example isNaN_signed_hexadecimal : NumText.isNaN "-0x10" = true.
Proof. reflexivity. Qed.

Example isNaN_fraction : NumText.isNaN "+.5e-3 " = false.
Proof. reflexivity. Qed.

(** U+00A0 before a digit is white space to JavaScript and not to SQLite. *)
Example no_break_space_then_digit :
  let s := String (ascii_of_nat 194) (String (ascii_of_nat 160) "3") in
  NumText.isNaN s = false /\ NumText.decimal_of_text s = None.
Proof. split; reflexivity. Qed.

Example int_eq_text_padded :
  int_eq_text (L := Sample.libraries) 12 " 12 " = true.
Proof. reflexivity. Qed.

Example int_eq_text_real :
  int_eq_text (L := Sample.libraries) 12 "1.2e1" = true.
Proof. reflexivity. Qed.

Example int_eq_text_fraction :
  int_eq_text (L := Sample.libraries) 12 "12.5" = false.
Proof. reflexivity. Qed.

Example int_eq_text_hexadecimal :
  int_eq_text (L := Sample.libraries) 31 "0x1F" = false.
Proof. reflexivity. Qed.

(** A real literal within half an ulp of 3 is 3 to the sample engine. *)
Example int_eq_text_rounded :
  int_eq_text (L := Sample.libraries) 3 "3.00000000000000000001" = true.
Proof. reflexivity. Qed.

(** An integer literal is compared exactly, beyond 2^53 as well. *)
Example int_eq_text_large :
  int_eq_text (L := Sample.libraries) 9007199254740992 "9007199254740993"
  = false.
Proof. reflexivity. Qed.

Example binary64_of_large :
  Js.binary64_of_Z 9007199254740993 = 9007199254740992.
Proof. reflexivity. Qed.

(** The two roundings agree: on integers, as on a tie that goes to the even
    significand. *)
Example binary64_roundings_agree :
  Forall (fun z => Binary64.round64 (inject_Z z)
                   = inject_Z (Js.binary64_of_Z z))
         [0; 1; -7; 9007199254740993; 9007199254740995; -9007199254740997;
          1152921504606846977; 123456789012345678901234567890].
Proof. repeat constructor. Qed.

(** ** POST /api/feedback *)

Section FeedbackProperties.

Context {L : Libraries}.

(** The three ways the handler ends. *)
Lemma post_feedback_cases (d : db) (req : feedback_body) (now : datetime) :
  (missing_fields req = true
   /\ post_feedback d req now
      = (d, Reply 400 (ErrorBody "Missing feedback fields")))
  \/ (missing_fields req = false
      /\ role_check (Js.str (b_role req)) = false
      /\ post_feedback d req now
         = (d, Reply 500 (ErrorBody "Failed to save feedback")))
  \/ (missing_fields req = false
      /\ role_check (Js.str (b_role req)) = true
      /\ post_feedback d req now
         = (mkDb (users d) (users_seq d)
                 (feedback d ++ [row_of_request d req now])
                 (row_of_request d req now).(f_id),
            Reply 200 SuccessBody)).
Proof.
  unfold post_feedback, missing_fields, insert_feedback, row_of_request.
  destruct (Js.falsy (b_feedback_text req) || Js.falsy (b_role req)
            || (Js.falsy (b_username req) && Js.falsy_num (b_user_id req))).
  - left. split; reflexivity.
  - right. destruct (role_check (Js.str (b_role req))).
    + right. repeat split; reflexivity.
    + left. repeat split; reflexivity.
Qed.

(** An accepted request is one that passed the guard and the CHECK, and
    its effect is the one new row. *)
Lemma post_feedback_accepted (d d' : db) (req : feedback_body)
    (now : datetime) (b : body) :
  post_feedback d req now = (d', Reply 200 b) ->
  missing_fields req = false
  /\ role_check (Js.str (b_role req)) = true
  /\ feedback d' = feedback d ++ [row_of_request d req now]
  /\ users d' = users d.
Proof.
  intros H.
  destruct (post_feedback_cases d req now)
    as [[_ E] | [[_ [_ E]] | [Hm [Hr E]]]];
    rewrite E in H; inversion H; subst; auto.
Qed.

(** C1.  Whenever POST /api/feedback stores a row, the score of the row is
    the compound polarity of the submitted text and the label follows from
    the score by the fixed thresholds: positive exactly above 0.3, negative
    exactly below -0.3, neutral exactly in between, both bounds included. *)
Theorem stored_label_follows_thresholds
    (d d' : db) (req : feedback_body) (now : datetime) (b : body) :
  post_feedback d req now = (d', Reply 200 b) ->
  exists row,
    feedback d' = feedback d ++ [row]
    /\ f_sentiment_score row
       = polarity_compound (Js.str (b_feedback_text req))
    /\ (f_sentiment_label row = "positive"
        <-> (3 # 10 < f_sentiment_score row)%Q)
    /\ (f_sentiment_label row = "negative"
        <-> (f_sentiment_score row < -3 # 10)%Q)
    /\ (f_sentiment_label row = "neutral"
        <-> (-3 # 10 <= f_sentiment_score row
             /\ f_sentiment_score row <= 3 # 10)%Q).
Proof.
  intros H. apply post_feedback_accepted in H.
  destruct H as (_ & _ & Hf & _).
  exists (row_of_request d req now). split; [exact Hf|].
  cbn [row_of_request f_sentiment_score f_sentiment_label].
  split; [reflexivity|].
  split; [apply sentiment_label_positive|].
  split; [apply sentiment_label_negative|apply sentiment_label_neutral].
Qed.

(** C2, as the handler has it.  A request whose feedback_text is empty or
    whose role is not one of guest, user and admin persists no row.  It is
    answered 400 when the guard of line 80 stops it (feedback_text or role
    empty or absent, or neither username nor user_id given); a role that is
    a non-empty string outside the three values passes the guard, is
    refused by the CHECK of the table, and is answered 500. *)
Theorem invalid_feedback_not_persisted
    (d : db) (req : feedback_body) (now : datetime) :
  Js.falsy (b_feedback_text req) = true
  \/ role_check (Js.str (b_role req)) = false ->
  (missing_fields req = true
   /\ post_feedback d req now
      = (d, Reply 400 (ErrorBody "Missing feedback fields")))
  \/ (missing_fields req = false
      /\ Js.falsy (b_feedback_text req) = false
      /\ Js.falsy (b_role req) = false
      /\ post_feedback d req now
         = (d, Reply 500 (ErrorBody "Failed to save feedback"))).
Proof.
  intros H.
  destruct (post_feedback_cases d req now)
    as [[Hm E] | [[Hm [Hr E]] | [Hm [Hr E]]]].
  - left. auto.
  - right. pose proof Hm as Hg. unfold missing_fields in Hg.
    apply orb_false_iff in Hg. destruct Hg as [Hg _].
    apply orb_false_iff in Hg. destruct Hg as [Ht Hro].
    auto.
  - exfalso. destruct H as [H | H]; [|congruence].
    unfold missing_fields in Hm. rewrite H in Hm. discriminate.
Qed.

(** C10.  A request in which both username and user_id are absent (or
    falsy) is answered 400 and leaves the database as it was, whatever its
    feedback_text and role. *)
Theorem feedback_requires_username_or_user_id
    (d : db) (req : feedback_body) (now : datetime) :
  Js.falsy (b_username req) = true ->
  Js.falsy_num (b_user_id req) = true ->
  post_feedback d req now
  = (d, Reply 400 (ErrorBody "Missing feedback fields")).
Proof.
  intros Hu Hi. unfold post_feedback. rewrite Hu, Hi.
  rewrite andb_true_r, orb_true_r. reflexivity.
Qed.


End FeedbackProperties.

Lemma stored_label_follows_thresholds_witness :
  post_feedback (L := Sample.libraries) empty_db Sample.guest_note Sample.noon
  = (run (L := Sample.libraries) empty_db
         [POST_feedback Sample.guest_note Sample.noon],
     Reply 200 SuccessBody)
  /\ exists row,
      feedback (run (L := Sample.libraries) empty_db
                    [POST_feedback Sample.guest_note Sample.noon])
      = feedback empty_db ++ [row]
      /\ f_sentiment_score row = (3 # 10)%Q
      /\ f_sentiment_label row = "neutral".
Proof.
  split; [reflexivity|].
  destruct (stored_label_follows_thresholds (L := Sample.libraries)
              empty_db _ Sample.guest_note Sample.noon SuccessBody eq_refl)
    as (row & Hf & Hs & _ & _ & Hn).
  exists row. split; [exact Hf|]. split; [exact Hs|].
  apply Hn. rewrite Hs. split; vm_compute; discriminate.
Defined.

(** C2 fails as stated: a role outside the three values, with the other
    fields present, is answered 500 and not 400. *)
Lemma unknown_role_answered_500 :
  let req := mkFeedbackBody None (Some "bob") (Some "superuser") (Some "bug")
                            (Some "hello") in
  role_check (Js.str (b_role req)) = false
  /\ post_feedback (L := Sample.libraries) Sample.populated req Sample.noon
     = (Sample.populated, Reply 500 (ErrorBody "Failed to save feedback")).
Proof. split; reflexivity. Qed.

Lemma invalid_feedback_not_persisted_witness :
  let req := mkFeedbackBody None (Some "bob") (Some "superuser") (Some "bug")
                            (Some "hello") in
  (missing_fields req = true
   /\ post_feedback (L := Sample.libraries) Sample.populated req Sample.noon
      = (Sample.populated, Reply 400 (ErrorBody "Missing feedback fields")))
  \/ (missing_fields req = false
      /\ Js.falsy (b_feedback_text req) = false
      /\ Js.falsy (b_role req) = false
      /\ post_feedback (L := Sample.libraries) Sample.populated req Sample.noon
         = (Sample.populated, Reply 500 (ErrorBody "Failed to save feedback"))).
Proof.
  intros req.
  apply (invalid_feedback_not_persisted (L := Sample.libraries)
           Sample.populated req Sample.noon).
  right. reflexivity.
Defined.

Lemma feedback_requires_username_or_user_id_witness :
  let req := mkFeedbackBody None None (Some "guest") (Some "idea")
                            (Some "great job") in
  post_feedback (L := Sample.libraries) Sample.populated req Sample.noon
  = (Sample.populated, Reply 400 (ErrorBody "Missing feedback fields")).
Proof.
  intros req.
  apply (feedback_requires_username_or_user_id (L := Sample.libraries)
           Sample.populated req Sample.noon); reflexivity.
Defined.


(** ** Registration and login *)

Lemma find_app_some {A : Type} (f : A -> bool) (l l' : list A) (x : A) :
  find f l = Some x -> find f (l ++ l') = Some x.
Proof.
  induction l as [|a l IH]; simpl; [discriminate|].
  destruct (f a); auto.
Qed.

Lemma find_app_none {A : Type} (f : A -> bool) (l l' : list A) :
  find f l = None -> find f (l ++ l') = find f l'.
Proof.
  induction l as [|a l IH]; simpl; [reflexivity|].
  destruct (f a); [discriminate|auto].
Qed.

Lemma existsb_false_find {A : Type} (f : A -> bool) (l : list A) :
  existsb f l = false -> find f l = None.
Proof.
  induction l as [|a l IH]; simpl; [reflexivity|].
  destruct (f a); simpl; [discriminate|auto].
Qed.

Section CredentialProperties.

Context {L : Libraries}.

(** A registration that succeeds has both fields, stores the hash of the
    password under a fresh rowid and answers with that rowid. *)
Lemma post_register_accepted (d d' : db) (req : credentials)
    (salt : string) (id : Z) :
  post_register d req salt = (d', Reply 200 (UserBody id)) ->
  Js.falsy (c_username req) = false
  /\ Js.falsy (c_password req) = false
  /\ select_user d (Js.str (c_username req)) = None
  /\ select_user d' (Js.str (c_username req))
     = Some (mkUser id (Js.str (c_username req))
                    (bcrypt_hash (Js.str (c_password req)) saltRounds salt)).
Proof.
  unfold post_register.
  destruct (Js.falsy (c_username req)) eqn:Hu; [discriminate|].
  destruct (Js.falsy (c_password req)) eqn:Hp; [discriminate|]. simpl.
  unfold insert_user.
  destruct (existsb _ (users d)) eqn:Hex; [discriminate|].
  apply existsb_false_find in Hex.
  unfold select_user at 1. simpl users.
  rewrite (find_app_none _ _ _ Hex). simpl.
  rewrite String.eqb_refl.
  intros H. inversion H; subst.
  repeat split; try assumption.
  unfold select_user. simpl users.
  rewrite (find_app_none _ _ _ Hex). simpl.
  rewrite String.eqb_refl. reflexivity.
Qed.

(** The lookup that follows a successful INSERT finds the new row: the
    registration never ends in an uncaught exception. *)
Lemma post_register_replies (d : db) (req : credentials) (salt : string) :
  snd (post_register d req salt) <> Uncaught.
Proof.
  unfold post_register.
  destruct (Js.falsy (c_username req) || Js.falsy (c_password req));
    [discriminate|].
  unfold insert_user.
  destruct (existsb _ (users d)) eqn:Hex; [discriminate|].
  apply existsb_false_find in Hex.
  unfold select_user. simpl users.
  rewrite (find_app_none _ _ _ Hex). simpl.
  rewrite String.eqb_refl. discriminate.
Qed.

(** No request removes or replaces a user: the row found under a username
    stays the row found under it. *)
Lemma select_user_handle (d : db) (r : request) (u : string)
    (row : user_row) :
  select_user d u = Some row ->
  select_user (fst (handle d r)) u = Some row.
Proof.
  intros Hs. destruct r; simpl; try exact Hs.
  - unfold post_register.
    destruct (Js.falsy (c_username req) || Js.falsy (c_password req));
      [exact Hs|].
    unfold insert_user.
    destruct (existsb _ (users d)); [exact Hs|].
    set (d' := mkDb _ _ _ _).
    assert (Hs' : select_user d' u = Some row).
    { unfold select_user, d'. simpl. apply find_app_some. exact Hs. }
    destruct (select_user d' (Js.str (c_username req))); exact Hs'.
  - unfold post_login.
    destruct (Js.falsy (c_username req) || Js.falsy (c_password req));
      [exact Hs|].
    destruct (select_user d (Js.str (c_username req))); [|exact Hs].
    destruct (bcrypt_compare _ _); exact Hs.
  - destruct (post_feedback_cases d req now)
      as [[_ E] | [[_ [_ E]] | [_ [_ E]]]]; rewrite E; exact Hs.
  - unfold delete_feedback.
    destruct ((feedbackId =? "")%string || NumText.isNaN feedbackId);
      [exact Hs|].
    unfold delete_feedback_rows.
    destruct (0 <? _); exact Hs.
Qed.

Lemma select_user_run (rs : list request) (d : db) (u : string)
    (row : user_row) :
  select_user d u = Some row ->
  select_user (run d rs) u = Some row.
Proof.
  revert d. induction rs as [|r rs IH]; intros d Hs; [exact Hs|].
  simpl. apply IH. apply select_user_handle. exact Hs.
Qed.

Lemma post_login_fst (d : db) (req : credentials) :
  fst (post_login d req) = d.
Proof.
  unfold post_login.
  destruct (Js.falsy (c_username req) || Js.falsy (c_password req));
    [reflexivity|].
  destruct (select_user d (Js.str (c_username req))); [|reflexivity].
  destruct (bcrypt_compare _ _); reflexivity.
Qed.

(** C7.  After a registration that succeeded with some user id, a login
    with the same username and password succeeds and returns that id,
    immediately and after any further requests. *)
Theorem login_after_register
    {B : BcryptCorrect L}
    (d d' : db) (req : credentials) (salt : string) (id : Z)
    (rs : list request) :
  post_register d req salt = (d', Reply 200 (UserBody id)) ->
  post_login (run d' rs) req = (run d' rs, Reply 200 (UserBody id)).
Proof.
  intros H. apply post_register_accepted in H.
  destruct H as (Hu & Hp & _ & Hs).
  apply (select_user_run rs) in Hs.
  unfold post_login. rewrite Hu, Hp, Hs. simpl.
  rewrite compare_hash. reflexivity.
Qed.

(** C8.  A login that fails gives nothing away about which check failed.
    With both fields present the answer is 400 with the one message
    "Invalid username or password", for an unknown username and for a known
    username with a password that does not match alike; and whatever the
    request, two databases in which it fails answer it identically. *)
Theorem failed_login_reveals_nothing
    (d1 d2 : db) (req : credentials) :
  (Js.falsy (c_username req) = false ->
   Js.falsy (c_password req) = false ->
   (select_user d1 (Js.str (c_username req)) = None ->
    post_login d1 req
    = (d1, Reply 400 (ErrorBody "Invalid username or password")))
   /\ (forall row,
         select_user d2 (Js.str (c_username req)) = Some row ->
         bcrypt_compare (Js.str (c_password req)) (u_password row) = false ->
         post_login d2 req
         = (d2, Reply 400 (ErrorBody "Invalid username or password"))))
  /\ (status_of (snd (post_login d1 req)) <> Some 200 ->
      status_of (snd (post_login d2 req)) <> Some 200 ->
      snd (post_login d1 req) = snd (post_login d2 req)).
Proof.
  split.
  - intros Hu Hp. split.
    + intros Hs. unfold post_login. rewrite Hu, Hp, Hs. reflexivity.
    + intros row Hs Hc. unfold post_login. rewrite Hu, Hp, Hs, Hc.
      reflexivity.
  - unfold post_login.
    destruct (Js.falsy (c_username req) || Js.falsy (c_password req));
      [reflexivity|].
    destruct (select_user d1 (Js.str (c_username req))) as [r1|];
      destruct (select_user d2 (Js.str (c_username req))) as [r2|];
      try destruct (bcrypt_compare _ (u_password r1));
      try destruct (bcrypt_compare _ (u_password r2));
      simpl; congruence.
Qed.

End CredentialProperties.

Lemma prefix_append (a b : string) : prefix a (a ++ b) = true.
Proof.
  induction a as [|c a IH]; simpl; [destruct b; reflexivity|].
  destruct (ascii_dec c c); [exact IH|congruence].
Qed.

Lemma sample_bcrypt_correct : BcryptCorrect Sample.libraries.
Proof.
  intros p r s. simpl. unfold Sample.compare, Sample.hash.
  replace (p ++ "$" ++ s)%string with ((p ++ "$") ++ s)%string.
  - apply prefix_append.
  - induction p as [|c p IH]; simpl; [reflexivity|]. now rewrite IH.
Qed.

Lemma login_after_register_witness :
  let d := run (L := Sample.libraries) empty_db
               [POST_register Sample.alice "salt1"] in
  let rs := [POST_feedback Sample.bug_report Sample.noon;
             POST_register (mkCredentials (Some "bob") (Some "hunter2")) "s2";
             DELETE_feedback "1"] in
  post_register (L := Sample.libraries) empty_db Sample.alice "salt1"
  = (d, Reply 200 (UserBody 1))
  /\ post_login (L := Sample.libraries)
                (run (L := Sample.libraries) d rs) Sample.alice
     = (run (L := Sample.libraries) d rs, Reply 200 (UserBody 1)).
Proof.
  intros d rs. split; [reflexivity|].
  apply (login_after_register (L := Sample.libraries)
           (B := sample_bcrypt_correct) empty_db d Sample.alice "salt1" 1 rs).
  reflexivity.
Defined.

Lemma failed_login_reveals_nothing_witness :
  let req := mkCredentials (Some "alice") (Some "nope") in
  post_login (L := Sample.libraries) empty_db req
  = (empty_db, Reply 400 (ErrorBody "Invalid username or password"))
  /\ post_login (L := Sample.libraries) Sample.populated req
     = (Sample.populated, Reply 400 (ErrorBody "Invalid username or password"))
  /\ snd (post_login (L := Sample.libraries) empty_db req)
     = snd (post_login (L := Sample.libraries) Sample.populated req).
Proof.
  intros req.
  destruct (failed_login_reveals_nothing (L := Sample.libraries)
              empty_db Sample.populated req) as [H1 H2].
  destruct (H1 eq_refl eq_refl) as [Hu Hk].
  split; [apply Hu; reflexivity|].
  split.
  - apply (Hk (mkUser 1 "alice" "pw123$salt1")); reflexivity.
  - apply H2; vm_compute; discriminate.
Defined.

(** ** Listings and deletion *)

Lemma insert_desc_perm (r : feedback_row) (l : list feedback_row) :
  Permutation (insert_desc r l) (r :: l).
Proof.
  induction l as [|x l IH]; simpl; [reflexivity|].
  destruct (datetime_compare (f_created_at x) (f_created_at r));
    try reflexivity.
  rewrite IH. apply perm_swap.
Qed.

Lemma order_by_created_at_desc_perm (l : list feedback_row) :
  Permutation (order_by_created_at_desc l) l.
Proof.
  induction l as [|x l IH]; simpl; [reflexivity|].
  rewrite insert_desc_perm. now constructor.
Qed.

Lemma in_order_by_created_at_desc (x : feedback_row) (l : list feedback_row) :
  In x (order_by_created_at_desc l) <-> In x l.
Proof.
  split; apply Permutation_in;
    [|symmetry]; apply order_by_created_at_desc_perm.
Qed.

Lemma max_rowid_ge (ids : list Z) (i : Z) : In i ids -> i <= max_rowid ids.
Proof.
  induction ids as [|j ids IH]; simpl; [tauto|].
  intros [-> | H]; [lia|]. specialize (IH H). lia.
Qed.

Lemma max_rowid_nonneg (ids : list Z) : 0 <= max_rowid ids.
Proof.
  induction ids as [|j ids IH]; simpl; lia.
Qed.

Lemma next_rowid_fresh (seq : Z) (ids : list Z) :
  0 < next_rowid seq ids
  /\ seq < next_rowid seq ids
  /\ forall i, In i ids -> i < next_rowid seq ids.
Proof.
  unfold next_rowid. pose proof (max_rowid_nonneg ids).
  repeat split; try lia.
  intros i Hi. apply max_rowid_ge in Hi. lia.
Qed.

Lemma filter_all {A : Type} (f : A -> bool) (l : list A) :
  (forall x, In x l -> f x = true) -> filter f l = l.
Proof.
  induction l as [|a l IH]; simpl; [reflexivity|].
  intros H. rewrite (H a (or_introl eq_refl)). f_equal. auto.
Qed.

Lemma filter_length_le {A : Type} (f : A -> bool) (l : list A) :
  (List.length (filter f l) <= List.length l)%nat.
Proof.
  induction l as [|a l IH]; simpl; [lia|].
  destruct (f a); simpl; lia.
Qed.

Lemma filter_length_lt {A : Type} (f : A -> bool) (l : list A) (x : A) :
  In x l -> f x = false ->
  (List.length (filter f l) < List.length l)%nat.
Proof.
  induction l as [|a l IH]; simpl; [tauto|].
  intros [-> | H] Hf.
  - rewrite Hf. pose proof (filter_length_le f l). lia.
  - specialize (IH H Hf). destruct (f a); simpl; lia.
Qed.

Section RepositoryProperties.

Context {L : Libraries}.

Lemma delete_feedback_rejected (d : db) (feedbackId : string) :
  invalid_id feedbackId = true ->
  delete_feedback d feedbackId
  = (d, Reply 400 (MessageBody false "Invalid feedback ID.")).
Proof.
  unfold invalid_id, delete_feedback. intros ->. reflexivity.
Qed.

Lemma delete_feedback_fst (d : db) (feedbackId : string) :
  invalid_id feedbackId = false ->
  fst (delete_feedback d feedbackId)
  = mkDb (users d) (users_seq d)
         (filter (fun r => negb (id_matches feedbackId r)) (feedback d))
         (feedback_seq d).
Proof.
  unfold invalid_id, delete_feedback. intros ->.
  unfold delete_feedback_rows. destruct (0 <? _); reflexivity.
Qed.

Lemma delete_feedback_found (d : db) (feedbackId : string)
    (row : feedback_row) :
  invalid_id feedbackId = false ->
  In row (feedback d) -> id_matches feedbackId row = true ->
  snd (delete_feedback d feedbackId)
  = Reply 200 (MessageBody true "Feedback deleted successfully.").
Proof.
  unfold invalid_id, delete_feedback. intros -> Hin Hm.
  unfold delete_feedback_rows.
  pose proof (filter_length_lt (fun r => negb (id_matches feedbackId r))
                (feedback d) row Hin) as Hlt.
  cbv beta in Hlt. rewrite Hm in Hlt. specialize (Hlt eq_refl).
  destruct (0 <? _) eqn:E; [reflexivity|].
  apply Z.ltb_ge in E. lia.
Qed.

Lemma delete_feedback_not_found (d : db) (feedbackId : string) :
  invalid_id feedbackId = false ->
  (forall row, In row (feedback d) -> id_matches feedbackId row = false) ->
  delete_feedback d feedbackId
  = (d, Reply 404 (MessageBody false "Feedback not found.")).
Proof.
  unfold invalid_id, delete_feedback. intros -> Hall.
  unfold delete_feedback_rows.
  rewrite filter_all by (intros x Hx; rewrite (Hall x Hx); reflexivity).
  rewrite Z.sub_diag. simpl. destruct d; reflexivity.
Qed.

(** A spent rowid stays spent: AUTOINCREMENT hands out rowids above the
    sequence only. *)
Lemma spent_handle (i : Z) (d : db) (r : request) :
  spent i d -> spent i (fst (handle d r)).
Proof.
  intros [Hseq Hno]. destruct r; simpl; try (split; assumption).
  - unfold post_register.
    destruct (Js.falsy (c_username req) || Js.falsy (c_password req));
      [split; assumption|].
    unfold insert_user.
    destruct (existsb _ (users d)); [split; assumption|].
    set (d' := mkDb _ _ _ _).
    destruct (select_user d' _); split; assumption.
  - rewrite post_login_fst. split; assumption.
  - destruct (post_feedback_cases d req now)
      as [[_ E] | [[_ [_ E]] | [_ [_ E]]]]; rewrite E;
      try (split; assumption).
    pose proof (next_rowid_fresh (feedback_seq d) (map f_id (feedback d)))
      as (_ & Hgt & _).
    split; simpl.
    + lia.
    + intros row Hin. apply in_app_or in Hin.
      destruct Hin as [Hin | [<- | []]]; [auto|].
      simpl. lia.
  - destruct (invalid_id feedbackId) eqn:Hv.
    + rewrite delete_feedback_rejected by exact Hv. split; assumption.
    + rewrite delete_feedback_fst by exact Hv. split; simpl; [exact Hseq|].
      intros row Hin. apply filter_In in Hin. apply Hno, Hin.
Qed.

Lemma spent_run (i : Z) (rs : list request) (d : db) :
  spent i d -> spent i (run d rs).
Proof.
  revert d. induction rs as [|r rs IH]; intros d H; [exact H|].
  simpl. apply IH, spent_handle, H.
Qed.

(** The listing of all feedback shows exactly the rows of the table. *)
Lemma in_all_feedback (d : db) (row : feedback_row) :
  In row (rows_of (snd (get_all_feedback d))) <-> In row (feedback d).
Proof. apply in_order_by_created_at_desc. Qed.

(** The guard of line 169 turns away the empty parameter and the parameters
    outside the grammar of StringNumericLiteral, and no other. *)
Lemma invalid_id_spec (feedbackId : string) :
  invalid_id feedbackId = true
  <-> feedbackId = "" \/ ~ Grammar.StringNumericLiteral feedbackId.
Proof.
  unfold invalid_id. rewrite orb_true_iff, String.eqb_eq.
  rewrite <- isNaN_spec. destruct (NumText.isNaN feedbackId).
  - split; intros _; right; [discriminate|reflexivity].
  - split; (intros [H | H]; [now left|]); [discriminate|].
    exfalso. apply H. reflexivity.
Qed.

(** The decimal text of [i] denotes the rows of rowid [i]. *)
Lemma id_matches_text_of_int (i : Z) (row : feedback_row) :
  int64 i -> id_matches (NumText.text_of_int i) row = has_id i row.
Proof.
  intros Hi. unfold id_matches, has_id.
  rewrite int_eq_text_of_int by exact Hi. apply Z.eqb_sym.
Qed.

(** The decimal text of [u] denotes the rows of user_id [u]. *)
Lemma user_id_matches_text_of_int (u : Z) (row : feedback_row) :
  int64 u -> user_id_matches (NumText.text_of_int u) row = has_user_id u row.
Proof.
  intros Hu. unfold user_id_matches, has_user_id.
  destruct (f_user_id row) as [v|]; [|reflexivity].
  rewrite int_eq_text_of_int by exact Hu. apply Z.eqb_sym.
Qed.

Lemma invalid_id_text_of_int (i : Z) :
  invalid_id (NumText.text_of_int i) = false.
Proof.
  destruct (isNaN_text_of_int i) as [Hn He].
  unfold invalid_id. rewrite Hn. apply String.eqb_neq in He. now rewrite He.
Qed.

Lemma delete_feedback_text_of_int (d : db) (i : Z) :
  int64 i ->
  fst (delete_feedback d (NumText.text_of_int i))
  = mkDb (users d) (users_seq d)
         (filter (fun row => negb (has_id i row)) (feedback d))
         (feedback_seq d).
Proof.
  intros Hi. rewrite delete_feedback_fst by apply invalid_id_text_of_int.
  f_equal. apply filter_ext. intros row.
  now rewrite id_matches_text_of_int.
Qed.


(** The bound on the rowids holds of the empty database and is kept by
    every request. *)
Lemma db_inv_empty : db_inv empty_db.
Proof. split; constructor. Qed.

Lemma db_inv_handle (d : db) (r : request) :
  db_inv d -> db_inv (fst (handle d r)).
Proof.
  intros [Hu Hf]. destruct r; simpl; try (split; assumption).
  - unfold post_register.
    destruct (Js.falsy (c_username req) || Js.falsy (c_password req));
      [split; assumption|].
    unfold insert_user.
    destruct (existsb _ (users d)); [split; assumption|].
    set (d' := mkDb _ _ _ _).
    assert (Hd' : db_inv d').
    { pose proof (next_rowid_fresh (users_seq d) (map u_id (users d)))
        as (Hpos & Hgt & _).
      split; [|exact Hf]. unfold d'. simpl.
      apply Forall_app. split.
      - eapply Forall_impl; [|exact Hu]. simpl. intros u ?. lia.
      - constructor; [simpl; lia|constructor]. }
    destruct (select_user d' _); exact Hd'.
  - rewrite post_login_fst. split; assumption.
  - destruct (post_feedback_cases d req now)
      as [[_ E] | [[_ [_ E]] | [_ [_ E]]]]; rewrite E;
      try (split; assumption).
    pose proof (next_rowid_fresh (feedback_seq d) (map f_id (feedback d)))
      as (Hpos & Hgt & _).
    split; [exact Hu|]. simpl.
    apply Forall_app. split.
    + eapply Forall_impl; [|exact Hf]. simpl. intros u ?. lia.
    + constructor; [simpl; lia|constructor].
  - destruct (invalid_id feedbackId) eqn:Hv.
    + rewrite delete_feedback_rejected by exact Hv. split; assumption.
    + rewrite delete_feedback_fst by exact Hv. split; [exact Hu|]. simpl.
      rewrite Forall_forall in *. intros row Hin.
      apply filter_In in Hin. apply Hf, Hin.
Qed.

Lemma db_inv_run (rs : list request) (d : db) :
  db_inv d -> db_inv (run d rs).
Proof.
  revert d. induction rs as [|r rs IH]; intros d H; [exact H|].
  simpl. apply IH, db_inv_handle, H.
Qed.


End RepositoryProperties.

Lemma sample_populated_inv : db_inv Sample.populated.
Proof.
  apply (db_inv_run (L := Sample.libraries)), db_inv_empty.
Qed.




(** A user_id beyond 2^53 is read back as the binary64 number nearest to
    it. *)
Example large_user_id_read_back_rounded :
  let req := mkFeedbackBody (Some 9007199254740993) (Some "bob") (Some "user")
                            (Some "bug") (Some "hello") in
  let d := fst (post_feedback (L := Sample.libraries) empty_db req
                              Sample.noon) in
  option_map Js.json_value (b_user_id req) = Some 9007199254740993
  /\ map f_user_id (rows_of (snd (get_all_feedback d)))
     = [Some 9007199254740992].
Proof. split; reflexivity. Qed.


(** ** Grouping *)

Section KeyProperties.

Context {R K : Type}.
Variable key : R -> K.
Variable cmp : K -> K -> comparison.
Context {O : KeyOrder cmp}.

Local Abbreviation same_key := (same_key key cmp).

Lemma cmp_refl (x : K) : cmp x x = Eq.
Proof. now apply cmp_eq. Qed.

Lemma cmp_lt_gt (x y : K) : cmp x y = Lt -> cmp y x = Gt.
Proof. intros H. now apply cmp_gt. Qed.

Lemma same_key_iff (k : K) (r : R) : same_key k r = true <-> key r = k.
Proof.
  unfold same_key. destruct (cmp (key r) k) eqn:E.
  - apply cmp_eq in E. tauto.
  - split; [discriminate|]. intros H. rewrite H, cmp_refl in E.
    discriminate.
  - split; [discriminate|]. intros H. rewrite H, cmp_refl in E.
    discriminate.
Qed.

Lemma same_key_lookup (k : K) (r : R) :
  same_key k r = match cmp k (key r) with Eq => true | _ => false end.
Proof.
  unfold same_key. destruct (cmp k (key r)) eqn:E.
  - apply cmp_eq in E. now rewrite E, cmp_refl.
  - now rewrite (cmp_lt_gt _ _ E).
  - apply cmp_gt in E. now rewrite E.
Qed.

End KeyProperties.

Section GroupByProperties.

Context {R K A : Type}.
Variable key : R -> K.
Variable cmp : K -> K -> comparison.
Context {O : KeyOrder cmp}.
Variable a0 : A.
Variable step : A -> R -> A.

Local Abbreviation same_key := (same_key key cmp).
Local Abbreviation rows_of_key := (rows_of_key key cmp).
Local Abbreviation ascending := (ascending cmp).
Local Abbreviation aggregate := (aggregate key cmp a0 step).
Local Abbreviation cmp_refl := (cmp_refl cmp).
Local Abbreviation cmp_lt_gt := (cmp_lt_gt cmp).
Local Abbreviation same_key_iff := (same_key_iff key cmp).
Local Abbreviation same_key_lookup := (same_key_lookup key cmp).

Lemma group_insert_keys (r : R) (g : list (K * A)) (x : K) :
  In x (map fst (group_insert key cmp a0 step r g))
  <-> x = key r \/ In x (map fst g).
Proof.
  induction g as [|[k a] g IH]; simpl.
  - intuition.
  - destruct (cmp (key r) k) eqn:E; simpl.
    + apply cmp_eq in E. subst k. intuition.
    + intuition.
    + rewrite IH. intuition.
Qed.

Lemma group_insert_ascending (r : R) (g : list (K * A)) :
  ascending g -> ascending (group_insert key cmp a0 step r g).
Proof.
  unfold ascending. induction g as [|[k a] g IH]; simpl; intros Hs.
  - constructor; constructor.
  - inversion Hs as [|? ? Hs' Hall]; subst.
    destruct (cmp (key r) k) eqn:E; simpl.
    + constructor; assumption.
    + constructor; [exact Hs|].
      constructor; [exact E|].
      eapply Forall_impl; [|exact Hall].
      intros y Hy. simpl in Hy. exact (cmp_trans _ _ _ E Hy).
    + constructor; [apply IH; exact Hs'|].
      apply Forall_forall. intros y Hy.
      apply group_insert_keys in Hy. destruct Hy as [-> | Hy].
      * now apply cmp_gt.
      * rewrite Forall_forall in Hall. apply Hall, Hy.
Qed.

(** A key below every key of the groups has no group. *)
Lemma group_lookup_below (k : K) (g : list (K * A)) :
  Forall (fun y => cmp k y = Lt) (map fst g) ->
  group_lookup cmp k g = None.
Proof.
  induction g as [|[k' a] g IH]; simpl; [reflexivity|].
  intros H. inversion H; subst. simpl in *.
  match goal with E : cmp k k' = Lt |- _ => rewrite E end. auto.
Qed.

Lemma group_lookup_insert (k : K) (r : R) (g : list (K * A)) :
  ascending g ->
  group_lookup cmp k (group_insert key cmp a0 step r g)
  = if same_key k r
    then Some (step (match group_lookup cmp k g with
                     | Some a => a
                     | None => a0
                     end) r)
    else group_lookup cmp k g.
Proof.
  unfold ascending. rewrite same_key_lookup.
  induction g as [|[k' a] g IH]; simpl; intros Hs.
  - destruct (cmp k (key r)); reflexivity.
  - inversion Hs as [|? ? Hs' Hall]; subst.
    destruct (cmp (key r) k') eqn:E; simpl.
    + apply cmp_eq in E. subst k'.
      destruct (cmp k (key r)); reflexivity.
    + destruct (cmp k (key r)) eqn:E2; try reflexivity.
      apply cmp_eq in E2. subst k. rewrite E.
      rewrite group_lookup_below; [reflexivity|].
      eapply Forall_impl; [|exact Hall].
      intros y Hy. simpl in Hy. exact (cmp_trans _ _ _ E Hy).
    + destruct (cmp k k') eqn:E2.
      * apply cmp_eq in E2. subst k'.
        apply cmp_gt in E. rewrite E. reflexivity.
      * apply IH, Hs'.
      * apply IH, Hs'.
Qed.

Lemma group_by_snoc (rows : list R) (r : R) :
  group_by key cmp a0 step (rows ++ [r])
  = group_insert key cmp a0 step r (group_by key cmp a0 step rows).
Proof. unfold group_by. now rewrite fold_left_app. Qed.

Lemma group_by_ascending (rows : list R) :
  ascending (group_by key cmp a0 step rows).
Proof.
  induction rows as [|r rows IH] using rev_ind.
  - constructor.
  - rewrite group_by_snoc. apply group_insert_ascending, IH.
Qed.

(** The group of a key holds the aggregate of the rows of that key, and a
    key without rows has no group. *)
Lemma group_by_lookup (rows : list R) (k : K) :
  group_lookup cmp k (group_by key cmp a0 step rows)
  = match rows_of_key k rows with
    | [] => None
    | _ => Some (aggregate k rows)
    end.
Proof.
  induction rows as [|r rows IH] using rev_ind; [reflexivity|].
  rewrite group_by_snoc, group_lookup_insert by apply group_by_ascending.
  unfold aggregate, rows_of_key in *. rewrite filter_app. simpl.
  rewrite IH. destruct (same_key k r).
  - rewrite fold_left_app. simpl.
    destruct (filter (same_key k) rows); reflexivity.
  - rewrite app_nil_r. reflexivity.
Qed.

Lemma in_group_lookup (k : K) (a : A) (g : list (K * A)) :
  ascending g ->
  In (k, a) g <-> group_lookup cmp k g = Some a.
Proof.
  unfold ascending. induction g as [|[k' a'] g IH]; simpl; intros Hs.
  - split; [tauto|discriminate].
  - inversion Hs as [|? ? Hs' Hall]; subst.
    rewrite Forall_forall in Hall.
    destruct (cmp k k') eqn:E.
    + apply cmp_eq in E. subst k'. split.
      * intros [H | H]; [congruence|].
        apply (in_map fst) in H. apply Hall in H. simpl in H.
        rewrite cmp_refl in H. discriminate.
      * intros H. left. congruence.
    + rewrite <- (IH Hs'). split; [|tauto].
      intros [H | H]; [|exact H].
      inversion H; subst. rewrite cmp_refl in E. discriminate.
    + rewrite <- (IH Hs'). split; [|tauto].
      intros [H | H]; [|exact H].
      inversion H; subst. rewrite cmp_refl in E. discriminate.
Qed.

(** The groups are exactly the keys that have rows, each once, each with
    the aggregate of its rows. *)
Lemma in_group_by (rows : list R) (k : K) (a : A) :
  In (k, a) (group_by key cmp a0 step rows)
  <-> rows_of_key k rows <> [] /\ a = aggregate k rows.
Proof.
  rewrite in_group_lookup by apply group_by_ascending.
  rewrite group_by_lookup.
  destruct (rows_of_key k rows) eqn:E.
  - split; [discriminate|]. intros [H _]. congruence.
  - split.
    + intros H. split; [discriminate|congruence].
    + intros [_ ->]. reflexivity.
Qed.

Lemma group_by_keys (rows : list R) (k : K) :
  In k (map fst (group_by key cmp a0 step rows))
  <-> exists r, In r rows /\ key r = k.
Proof.
  split.
  - intros H. apply in_map_iff in H. destruct H as ([k' a] & <- & H).
    apply in_group_by in H. destruct H as [H _]. simpl.
    unfold rows_of_key in H.
    destruct (filter (same_key k') rows) as [|r l] eqn:E; [congruence|].
    assert (Hr : In r (filter (same_key k') rows))
      by (rewrite E; left; reflexivity).
    apply filter_In in Hr. destruct Hr as [Hr Hk].
    exists r. split; [exact Hr|]. now apply same_key_iff.
  - intros (r & Hr & Hk).
    apply in_map_iff. exists (k, aggregate k rows). split; [reflexivity|].
    apply in_group_by. split; [|reflexivity].
    assert (Hin : In r (rows_of_key k rows)).
    { apply filter_In. split; [exact Hr|]. now apply same_key_iff. }
    intros E. rewrite E in Hin. exact Hin.
Qed.

Lemma ascending_NoDup (g : list (K * A)) :
  ascending g -> NoDup (map fst g).
Proof.
  unfold ascending. induction (map fst g) as [|x l IH]; intros Hs.
  - constructor.
  - inversion Hs as [|? ? Hs' Hall]; subst. constructor; [|auto].
    intros Hin. rewrite Forall_forall in Hall. apply Hall in Hin.
    rewrite cmp_refl in Hin. discriminate.
Qed.

End GroupByProperties.

(** ** The orders of the grouped columns *)

#[export] Instance string_key_order : KeyOrder String_as_OT.compare.
Proof.
  split.
  - intros x y. destruct (String_as_OT.compare_spec x y) as [H | H | H].
    + tauto.
    + split; [discriminate|]. intros ->.
      exfalso. exact (StrictOrder_Irreflexive _ H).
    + split; [discriminate|]. intros ->.
      exfalso. exact (StrictOrder_Irreflexive _ H).
  - intros x y. destruct (String_as_OT.compare_spec x y) as [H | H | H].
    + hnf in H. subst y. split; [discriminate|]. intros H.
      exfalso. exact (StrictOrder_Irreflexive (R := String_as_OT.lt) _ H).
    + split; [discriminate|]. intros H'.
      exfalso. apply (StrictOrder_Irreflexive (R := String_as_OT.lt) x).
      exact (StrictOrder_Transitive _ _ _ H H').
    + tauto.
  - intros x y z. exact (StrictOrder_Transitive (R := String_as_OT.lt) x y z).
Qed.

#[export] Instance date_key_order : KeyOrder date_compare.
Proof.
  split.
  - intros [y1 m1 d1] [y2 m2 d2]. unfold date_compare, lex. simpl.
    destruct (Z.compare_spec y1 y2), (Z.compare_spec m1 m2),
      (Z.compare_spec d1 d2); subst;
      (split; [try discriminate; reflexivity|
               intros E; inversion E; try reflexivity; lia]).
  - intros [y1 m1 d1] [y2 m2 d2]. unfold date_compare, lex. simpl.
    destruct (Z.compare_spec y1 y2), (Z.compare_spec m1 m2),
      (Z.compare_spec d1 d2), (Z.compare_spec y2 y1),
      (Z.compare_spec m2 m1), (Z.compare_spec d2 d1);
      try lia; split; intros; try discriminate; reflexivity.
  - intros [y1 m1 d1] [y2 m2 d2] [y3 m3 d3]. unfold date_compare, lex. simpl.
    destruct (Z.compare_spec y1 y2), (Z.compare_spec m1 m2),
      (Z.compare_spec d1 d2); try discriminate;
      destruct (Z.compare_spec y2 y3), (Z.compare_spec m2 m3),
        (Z.compare_spec d2 d3); try discriminate;
      destruct (Z.compare_spec y1 y3), (Z.compare_spec m1 m3),
        (Z.compare_spec d1 d3); try lia; reflexivity.
Qed.

(** ** The analytics queries *)

Lemma count_fold {R : Type} (rows : list R) (n : Z) :
  fold_left (fun m _ => m + 1) rows n = n + Z.of_nat (List.length rows).
Proof.
  revert n. induction rows as [|r rows IH]; intros n; simpl List.length.
  - simpl. lia.
  - simpl fold_left. rewrite IH. lia.
Qed.

Lemma count_insert_total {R K : Type} (key : R -> K)
    (cmp : K -> K -> comparison) (r : R) (g : list (K * Z)) :
  sum_counts (map snd (group_insert key cmp 0 (fun n _ => n + 1) r g))
  = sum_counts (map snd g) + 1.
Proof.
  unfold sum_counts.
  induction g as [|[k n] g IH]; cbn [group_insert map snd fold_right];
    [reflexivity|].
  destruct (cmp (key r) k); cbn [map snd fold_right]; lia.
Qed.

Lemma count_group_by_total {R K : Type} (key : R -> K)
    (cmp : K -> K -> comparison) (rows : list R) :
  sum_counts (map snd (group_by key cmp 0 (fun n _ => n + 1) rows))
  = Z.of_nat (List.length rows).
Proof.
  induction rows as [|r rows IH] using rev_ind; [reflexivity|].
  rewrite group_by_snoc, count_insert_total, IH, length_app. simpl. lia.
Qed.

Lemma rows_of_key_labelled (l : string) (rows : list feedback_row) :
  rows_of_key f_sentiment_label String_as_OT.compare l rows
  = rows_labelled l rows.
Proof.
  apply filter_ext. intros r.
  destruct (f_sentiment_label r =? l)%string eqn:E.
  - apply String.eqb_eq in E.
    apply (same_key_iff f_sentiment_label String_as_OT.compare). exact E.
  - destruct (same_key f_sentiment_label String_as_OT.compare l r) eqn:E';
      [|reflexivity].
    apply (same_key_iff f_sentiment_label String_as_OT.compare) in E'.
    apply String.eqb_neq in E. contradiction.
Qed.

(** C5.  The sentiment summary has one entry for each label that some row
    carries and for no other label; the count of an entry is the number of
    rows with its label, which is not zero; and the counts add up to the
    number of rows of the table. *)
Theorem sentiment_summary_counts (d : db) :
  exists summary,
    get_sentiment_summary d = (d, Reply 200 (LabelCounts summary))
    /\ NoDup (map fst summary)
    /\ (forall l, In l (map fst summary)
                  <-> exists row, In row (feedback d)
                                  /\ f_sentiment_label row = l)
    /\ (forall l n, In (l, n) summary ->
                    n = Z.of_nat (List.length (rows_labelled l (feedback d)))
                    /\ 0 < n)
    /\ sum_counts (map snd summary) = Z.of_nat (List.length (feedback d)).
Proof.
  exists (select_sentiment_summary d). unfold select_sentiment_summary.
  split; [reflexivity|].
  split; [apply (ascending_NoDup String_as_OT.compare), group_by_ascending;
          exact string_key_order|].
  split; [intros l; apply (group_by_keys f_sentiment_label
                             String_as_OT.compare)|].
  split; [|apply count_group_by_total].
  intros l n H.
  apply (in_group_by f_sentiment_label String_as_OT.compare) in H.
  destruct H as [Hne ->].
  unfold aggregate. rewrite count_fold. rewrite rows_of_key_labelled in *.
  split; [reflexivity|].
  destruct (rows_labelled l (feedback d)); [congruence|simpl; lia].
Qed.

(** ** Binary64 rounding

    The sample engine rounds each operation to the nearest binary64 number;
    its averages are within the rounding error of the arithmetic mean. *)

Section Rounding.

Import Binary64.

Local Open Scope Q_scope.

Lemma pow2_pos (j : Z) : 0 < 2 ^ j.
Proof. apply Qpower_0_lt. reflexivity. Qed.

Lemma pow2_add (a b : Z) : 2 ^ (a + b) == 2 ^ a * 2 ^ b.
Proof. apply Qpower_plus. discriminate. Qed.

Lemma pow2_inject (a : Z) : (0 <= a)%Z -> inject_Z (2 ^ a) == 2 ^ a.
Proof. intros H. now rewrite Zpower_Qpower. Qed.

Lemma pow2_opp (k : Z) : 2 ^ (- k) * 2 ^ k == 1.
Proof.
  rewrite <- pow2_add. replace (- k + k)%Z with 0%Z by lia. reflexivity.
Qed.

(** [scale2 n d k] is the fraction [n / d * 2 ^ k]. *)
Lemma scale2_spec (n d k : Z) :
  (0 < d)%Z ->
  (0 < snd (scale2 n d k))%Z
  /\ inject_Z (fst (scale2 n d k)) * inject_Z d
     == inject_Z n * inject_Z (snd (scale2 n d k)) * 2 ^ k.
Proof.
  intros Hd. unfold scale2. destruct (0 <=? k)%Z eqn:E; cbn [fst snd].
  - apply Z.leb_le in E. split; [exact Hd|].
    rewrite inject_Z_mult, pow2_inject by exact E. ring.
  - apply Z.leb_gt in E. split.
    + apply Z.mul_pos_pos; [exact Hd|]. apply Z.pow_pos_nonneg; lia.
    + rewrite inject_Z_mult, pow2_inject by lia.
      setoid_replace (inject_Z n * (inject_Z d * 2 ^ (- k)) * 2 ^ k)
        with (inject_Z n * inject_Z d * (2 ^ (- k) * 2 ^ k)) by ring.
      rewrite pow2_opp. ring.
Qed.

(** Rounding a quotient to the nearest integer, ties to even, is off by at
    most a half. *)
Lemma nearest_spec (N D : Z) :
  (0 < D)%Z ->
  let m := (N / D)%Z in
  let r := (N mod D)%Z in
  let m' := if ((D <? 2 * r) || ((2 * r =? D) && Z.odd m))%Z then (m + 1)%Z
            else m in
  (- D <= 2 * (m' * D - N) <= D)%Z.
Proof.
  intros HD m r m'.
  pose proof (Z.div_mod N D ltac:(lia)) as Hdm.
  pose proof (Z.mod_pos_bound N D HD) as Hr.
  fold m r in Hdm, Hr. unfold m'.
  destruct (D <? 2 * r)%Z eqn:E1; cbn [orb].
  - apply Z.ltb_lt in E1. nia.
  - apply Z.ltb_ge in E1.
    destruct (2 * r =? D)%Z eqn:E2; cbn [andb].
    + apply Z.eqb_eq in E2. destruct (Z.odd m); nia.
    + nia.
Qed.

(** The exponent chosen for [n / d] is at most its binary logarithm. *)
Lemma exponent_spec (n d : Z) :
  (0 < n)%Z -> (0 < d)%Z ->
  let e0 := (Z.log2 n - Z.log2 d)%Z in
  let e := if (fst (scale2 n d (- e0)) <? snd (scale2 n d (- e0)))%Z
           then (e0 - 1)%Z else e0 in
  2 ^ e * inject_Z d <= inject_Z n.
Proof.
  intros Hn Hd e0 e.
  destruct (scale2_spec n d (- e0) Hd) as [Hd0 Hs].
  set (n0 := fst (scale2 n d (- e0))) in *.
  set (d0 := snd (scale2 n d (- e0))) in *.
  assert (Hdq : 0 < inject_Z d) by (change 0 with (inject_Z 0); now rewrite <- Zlt_Qlt).
  assert (Hd0q : 0 < inject_Z d0) by (change 0 with (inject_Z 0); now rewrite <- Zlt_Qlt).
  unfold e. destruct (n0 <? d0)%Z eqn:E.
  - (* from the logarithms *)
    pose proof (Z.log2_spec n Hn) as [Hln _].
    pose proof (Z.log2_spec d Hd) as [_ Hld].
    assert (H1 : 2 ^ Z.log2 n <= inject_Z n).
    { rewrite <- pow2_inject by apply Z.log2_nonneg. now rewrite <- Zle_Qle. }
    assert (H2 : inject_Z d <= 2 ^ (Z.log2 d + 1)).
    { rewrite <- pow2_inject by (pose proof (Z.log2_nonneg d); lia).
      rewrite <- Zle_Qle. unfold Z.succ in Hld. lia. }
    apply Qle_trans with (2 ^ Z.log2 n); [|exact H1].
    assert (Hsplit : 2 ^ Z.log2 n == 2 ^ (e0 - 1) * 2 ^ (Z.log2 d + 1)).
    { rewrite <- pow2_add.
      replace (e0 - 1 + (Z.log2 d + 1))%Z with (Z.log2 n)
        by (unfold e0; lia).
      reflexivity. }
    rewrite Hsplit. apply Qmult_le_l; [apply pow2_pos|exact H2].
  - apply Z.ltb_ge in E.
    assert (E' : inject_Z d0 <= inject_Z n0) by now rewrite <- Zle_Qle.
    (* n0 * d == n * d0 * 2^(-e0) and d0 <= n0 *)
    assert (H3 : inject_Z d0 * inject_Z d
                 <= inject_Z n * 2 ^ (- e0) * inject_Z d0).
    { setoid_replace (inject_Z n * 2 ^ (- e0) * inject_Z d0)
        with (inject_Z n * inject_Z d0 * 2 ^ (- e0)) by ring.
      rewrite <- Hs. apply Qmult_le_compat_r; [exact E'|].
      apply Qlt_le_weak, Hdq. }
    assert (H4 : inject_Z d <= inject_Z n * 2 ^ (- e0)).
    { apply Qmult_le_r with (inject_Z d0); [exact Hd0q|].
      setoid_replace (inject_Z d * inject_Z d0)
        with (inject_Z d0 * inject_Z d) by ring. exact H3. }
    apply Qle_trans with (2 ^ e0 * (inject_Z n * 2 ^ (- e0))).
    + apply Qmult_le_l; [apply pow2_pos|exact H4].
    + setoid_replace (2 ^ e0 * (inject_Z n * 2 ^ (- e0)))
        with (inject_Z n * (2 ^ (- e0) * 2 ^ e0)) by ring.
      rewrite pow2_opp. rewrite Qmult_1_r. apply Qle_refl.
Qed.

Lemma inject_Z_pos (z : Z) : (0 < z)%Z -> 0 < inject_Z z.
Proof. intros H. change 0 with (inject_Z 0). now rewrite <- Zlt_Qlt. Qed.

(** The value of a rounded number: a significand [m'] scaled by a power of
    two, within half a unit of [n / d] scaled likewise, the scale being at
    least 2^52 over [n / d]. *)
Lemma round_magnitude (n d : Z) :
  (0 < n)%Z -> (0 < d)%Z ->
  forall k N D m',
    2 ^ (52 - k) * inject_Z d <= inject_Z n ->
    (0 < D)%Z ->
    inject_Z N * inject_Z d == inject_Z n * inject_Z D * 2 ^ k ->
    (- D <= 2 * (m' * D - N) <= D)%Z ->
    Qabs (inject_Z m' * 2 ^ (- k) - inject_Z n / inject_Z d)
    <= unit_roundoff * (inject_Z n / inject_Z d).
Proof.
  intros Hn Hd k N D m' He HD HS Hm.
  pose proof (inject_Z_pos _ Hd) as Hdq.
  pose proof (inject_Z_pos _ HD) as HDq.
  pose proof (pow2_pos k) as HP. pose proof (pow2_pos (- k)) as HPi.
  pose proof (pow2_opp k) as Hinv.
  set (X := inject_Z n / inject_Z d).
  set (M := inject_Z m') in *. set (P := 2 ^ k) in *.
  set (Pi := 2 ^ (- k)) in *.
  assert (HN : inject_Z N == X * inject_Z D * P).
  { unfold X. field_simplify_eq; [|lra]. rewrite HS. ring. }
  assert (Hm1 : - inject_Z D <= 2 * (M * inject_Z D - inject_Z N)
                /\ 2 * (M * inject_Z D - inject_Z N) <= inject_Z D).
  { unfold M. rewrite <- !inject_Z_mult, <- inject_Z_opp.
    unfold Qminus. rewrite <- inject_Z_opp, <- inject_Z_plus.
    change 2 with (inject_Z 2). rewrite <- inject_Z_mult, <- !Zle_Qle. lia. }
  set (T := M - X * P).
  assert (HT : - (1 # 2) <= T /\ T <= 1 # 2).
  { assert (HTD : 2 * (M * inject_Z D - inject_Z N) == 2 * T * inject_Z D).
    { rewrite HN. unfold T. ring. }
    rewrite HTD in Hm1. destruct Hm1 as [Hlo Hhi].
    split; nra. }
  assert (Hdiff : M * Pi - X == Pi * T).
  { unfold T.
    setoid_replace (Pi * (M - X * P)) with (M * Pi - X * (Pi * P)) by ring.
    rewrite Hinv. ring. }
  assert (Hhalf : Pi * (1 # 2) <= unit_roundoff * X).
  { assert (HX : 2 ^ (52 - k) <= X).
    { unfold X. apply Qle_shift_div_l; [exact Hdq|exact He]. }
    assert (Hpow : Pi * (1 # 2) == unit_roundoff * 2 ^ (52 - k)).
    { unfold Z.sub. rewrite pow2_add. fold Pi. unfold unit_roundoff.
      setoid_replace (2 ^ 52) with (4503599627370496 # 1) by reflexivity.
      ring. }
    rewrite Hpow. apply Qmult_le_l; [reflexivity|exact HX]. }
  rewrite Hdiff. apply Qabs_Qle_condition.
  destruct HT as [Hlo Hhi]. split; nra.
Qed.

(** Rounding to binary64 has a relative error of at most 2^-53. *)
Lemma round64_error (q : Q) :
  Qabs (round64 q - q) <= unit_roundoff * Qabs q.
Proof.
  destruct q as [a b]. unfold round64. cbn [Qnum Qden].
  destruct (Z.abs a =? 0)%Z eqn:E0.
  - apply Z.eqb_eq in E0. assert (Ha : a = 0%Z) by lia. subst a.
    setoid_replace (0 # b) with 0 by reflexivity. vm_compute. discriminate.
  - apply Z.eqb_neq in E0.
    assert (Hn : (0 < Z.abs a)%Z) by lia.
    assert (Hd : (0 < Z.pos b)%Z) by lia.
    pose proof (exponent_spec _ _ Hn Hd) as He. cbv zeta in He.
    revert He.
    set (e0 := (Z.log2 (Z.abs a) - Z.log2 (Z.pos b))%Z).
    destruct (scale2 (Z.abs a) (Z.pos b) (- e0)) as [n0 d0]. cbn [fst snd].
    set (e := if (n0 <? d0)%Z then (e0 - 1)%Z else e0). intros He.
    set (k := (52 - e)%Z).
    destruct (scale2_spec (Z.abs a) (Z.pos b) k Hd) as [HD HS]. revert HD HS.
    destruct (scale2 (Z.abs a) (Z.pos b) k) as [N D]. cbn [fst snd].
    intros HD HS.
    pose proof (nearest_spec N D HD) as Hm. cbv zeta in Hm. revert Hm.
    set (m' := if ((D <? 2 * (N mod D)) || ((2 * (N mod D) =? D)
                                            && Z.odd (N / D)))%Z
               then (N / D + 1)%Z else (N / D)%Z).
    intros Hm.
    assert (Hek : e = (52 - k)%Z) by (unfold k; lia).
    rewrite Hek in He.
    pose proof (round_magnitude _ _ Hn Hd k N D m' He HD HS Hm) as Hmag.
    set (X := inject_Z (Z.abs a) / inject_Z (Z.pos b)) in *.
    assert (Hval : Qred (if (0 <=? k)%Z
                         then Z.sgn a * m' # Z.to_pos (2 ^ k)
                         else inject_Z (Z.sgn a * m' * 2 ^ (- k)))
                   == inject_Z (Z.sgn a) * (inject_Z m' * 2 ^ (- k))).
    { rewrite Qred_correct. destruct (0 <=? k)%Z eqn:Ek.
      - apply Z.leb_le in Ek.
        rewrite Qmake_Qdiv, Z2Pos.id by (apply Z.pow_pos_nonneg; lia).
        rewrite pow2_inject by exact Ek. rewrite inject_Z_mult.
        rewrite Qpower_opp. unfold Qdiv. ring.
      - apply Z.leb_gt in Ek.
        rewrite !inject_Z_mult, pow2_inject by lia. ring. }
    assert (Hq : a # b == inject_Z (Z.sgn a) * X).
    { assert (Ha : inject_Z a
                   == inject_Z (Z.sgn a) * inject_Z (Z.abs a))
        by (rewrite <- inject_Z_mult; apply inject_Z_injective;
            destruct (Z.sgn_spec a) as [[? ->] | [[? ->] | [? ->]]]; lia).
      unfold X. rewrite Qmake_Qdiv, Ha. unfold Qdiv. ring. }
    assert (Habs : Qabs (a # b) == X).
    { unfold X. rewrite <- Qmake_Qdiv. reflexivity. }
    rewrite Hval, Habs.
    setoid_replace (inject_Z (Z.sgn a) * (inject_Z m' * 2 ^ (- k)) - (a # b))
      with (inject_Z (Z.sgn a) * (inject_Z m' * 2 ^ (- k) - X))
      by (rewrite Hq; ring).
    rewrite Qabs_Qmult.
    assert (Hs : Qabs (inject_Z (Z.sgn a)) == 1).
    { destruct (Z.sgn_spec a) as [[_ ->] | [[H0 _] | [_ ->]]];
        [reflexivity|lia|reflexivity]. }
    rewrite Hs, Qmult_1_l. exact Hmag.
Qed.

Lemma growth_succ (m : nat) :
  growth (S m) == growth m * (1 + unit_roundoff).
Proof.
  unfold growth. rewrite Nat2Z.inj_succ. unfold Z.succ.
  rewrite Qpower_plus by discriminate. reflexivity.
Qed.

Lemma growth_ge_1 (m : nat) : 1 <= growth m.
Proof.
  unfold growth. apply Qpower_1_le; [discriminate|lia].
Qed.

Lemma sum_from (l : list Q) (a : Q) :
  fold_left Qplus l a == a + fold_left Qplus l 0.
Proof.
  revert a. induction l as [|x l IH]; intros a; cbn [fold_left].
  - ring.
  - rewrite (IH (a + x)), (IH (0 + x)). ring.
Qed.

Lemma sum_abs_nonneg (l : list Q) : 0 <= fold_left Qplus (map Qabs l) 0.
Proof.
  induction l as [|x l IH]; cbn [map fold_left]; [apply Qle_refl|].
  rewrite sum_from. pose proof (Qabs_nonneg x). lra.
Qed.

Lemma abs_sum_le (l : list Q) :
  Qabs (fold_left Qplus l 0) <= fold_left Qplus (map Qabs l) 0.
Proof.
  induction l as [|x l IH]; cbn [map fold_left]; [apply Qle_refl|].
  rewrite (sum_from l), (sum_from (map Qabs l)).
  eapply Qle_trans; [apply Qabs_triangle|].
  setoid_replace (0 + x) with x by ring.
  setoid_replace (0 + Qabs x) with (Qabs x) by ring.
  lra.
Qed.

(** The sum taken with a rounding after each addition. *)
Lemma rounded_sum_error (l : list Q) (acc : Q) :
  Qabs (fold_left (fun a x => round64 (a + x)) l acc - fold_left Qplus l acc)
  <= (growth (List.length l) - 1)
     * (Qabs acc + fold_left Qplus (map Qabs l) 0).
Proof.
  revert acc. induction l as [|x l IH]; intros acc.
  - cbn [fold_left map List.length].
    setoid_replace (acc - acc) with 0 by ring.
    setoid_replace (growth 0 - 1) with 0 by reflexivity.
    rewrite Qmult_0_l. apply Qle_refl.
  - cbn [fold_left map List.length].
    set (a' := round64 (acc + x)).
    specialize (IH a').
    pose proof (round64_error (acc + x)) as Hr. fold a' in Hr.
    pose proof (Qabs_triangle acc x) as Htri.
    pose proof (sum_abs_nonneg l) as HSA.
    pose proof (growth_ge_1 (List.length l)) as Hg.
    rewrite growth_succ.
    rewrite (sum_from l (acc + x)), (sum_from (map Qabs l) (0 + Qabs x)).
    rewrite (sum_from l a') in IH.
    set (S0 := fold_left Qplus l 0) in *.
    set (SA := fold_left Qplus (map Qabs l) 0) in *.
    set (F := fold_left (fun a x0 => round64 (a + x0)) l a') in *.
    set (g := growth (List.length l)) in *.
    assert (Hu : 0 <= unit_roundoff) by discriminate.
    set (u := unit_roundoff) in *.
    (* |a'| <= (1 + u) (|acc| + |x|) *)
    assert (Ha' : Qabs a' <= (1 + u) * (Qabs acc + Qabs x)).
    { setoid_replace a' with ((a' - (acc + x)) + (acc + x)) by ring.
      eapply Qle_trans; [apply Qabs_triangle|].
      pose proof (Qabs_nonneg (acc + x)). nra. }
    assert (Hd : Qabs (a' - (acc + x)) <= u * (Qabs acc + Qabs x)).
    { eapply Qle_trans; [exact Hr|]. apply Qmult_le_l_nonstrict || nra. }
    setoid_replace (F - (acc + x + S0))
      with ((F - (a' + S0)) + (a' - (acc + x))) by ring.
    eapply Qle_trans; [apply Qabs_triangle|].
    pose proof (Qabs_nonneg acc). pose proof (Qabs_nonneg x).
    pose proof (Qabs_nonneg a').
    set (A := Qabs acc) in *. set (X := Qabs x) in *.
    set (A' := Qabs a') in *.
    set (E1 := Qabs (F - (a' + S0))) in *.
    set (E2 := Qabs (a' - (acc + x))) in *.
    assert (Hstep : (g - 1) * (A' + SA)
                    <= (g - 1) * ((1 + u) * (A + X) + SA)) by nra.
    assert (Hpos : 0 <= SA * g * u)
      by (apply Qmult_le_0_compat; [apply Qmult_le_0_compat|]; lra).
    nra.
Qed.

(** The average of the sample engine is within the rounding error of the
    arithmetic mean. *)
Lemma avg_error (l : list Q) :
  l <> [] ->
  Qabs (avg l - arithmetic_mean l) <= rounding_error l.
Proof.
  intros Hne. unfold rounding_error, avg, arithmetic_mean.
  rewrite length_map.
  set (nq := inject_Z (Z.of_nat (List.length l))).
  assert (Hn : 0 < nq).
  { apply inject_Z_pos. destruct l; [congruence|]. simpl List.length. lia. }
  pose proof (rounded_sum_error l 0) as Hsum.
  pose proof (abs_sum_le l) as Habs.
  pose proof (sum_abs_nonneg l) as HSA.
  pose proof (growth_ge_1 (List.length l)) as Hg.
  rewrite growth_succ.
  set (F := fold_left (fun a x => round64 (a + x)) l 0) in *.
  set (S0 := fold_left Qplus l 0) in *.
  set (SA := fold_left Qplus (map Qabs l) 0) in *.
  set (g := growth (List.length l)) in *.
  assert (Hu : 0 <= unit_roundoff) by discriminate.
  pose proof (round64_error (F / nq)) as Hr.
  set (u := unit_roundoff) in *.
  setoid_replace (Qabs 0) with 0 in Hsum by reflexivity.
  (* bounds on the quotient *)
  assert (Hinv : 0 < / nq) by now apply Qinv_lt_0_compat.
  assert (Hq1 : Qabs (F / nq - S0 / nq) <= (g - 1) * SA * / nq).
  { setoid_replace (F / nq - S0 / nq) with ((F - S0) * / nq)
      by (unfold Qdiv; ring).
    rewrite Qabs_Qmult, (Qabs_pos (/ nq)) by lra.
    apply Qmult_le_compat_r; [|lra].
    eapply Qle_trans; [exact Hsum|]. lra. }
  assert (Hq2 : Qabs (F / nq) <= g * SA * / nq).
  { setoid_replace (F / nq) with ((F / nq - S0 / nq) + S0 * / nq)
      by (unfold Qdiv; ring).
    eapply Qle_trans; [apply Qabs_triangle|].
    rewrite (Qabs_Qmult S0), (Qabs_pos (/ nq)) by lra.
    assert (Qabs S0 * / nq <= SA * / nq)
      by (apply Qmult_le_compat_r; lra).
    lra. }
  setoid_replace (round64 (F / nq) - S0 / nq)
    with ((round64 (F / nq) - F / nq) + (F / nq - S0 / nq)) by ring.
  eapply Qle_trans; [apply Qabs_triangle|].
  assert (H3 : u * Qabs (F / nq) <= u * (g * SA * / nq)) by nra.
  set (E1 := Qabs (round64 (F / nq) - F / nq)) in *.
  set (E2 := Qabs (F / nq - S0 / nq)) in *.
  set (Q0 := Qabs (F / nq)) in *.
  change (SA / nq) with (SA * / nq).
  set (W := SA * / nq).
  assert (HW : 0 <= W) by (unfold W; nra).
  assert (Hq1' : E2 <= (g - 1) * W) by (unfold W; lra).
  assert (H3' : E1 <= u * (g * W)) by (unfold W; lra).
  nra.
Qed.

End Rounding.

Lemma sample_avg_rounded : AvgRounded Sample.libraries.
Proof. intros scores. apply avg_error. Qed.

Lemma dataset_avg_rounded : AvgRounded MoreSamples.dataset.
Proof. intros scores. apply avg_error. Qed.

Lemma scores_fold (rows : list feedback_row) (acc : list Q) :
  fold_left (fun scores r => scores ++ [f_sentiment_score r]) rows acc
  = acc ++ map f_sentiment_score rows.
Proof.
  revert acc. induction rows as [|r rows IH]; intros acc.
  - simpl. now rewrite app_nil_r.
  - simpl fold_left. rewrite IH, <- app_assoc. reflexivity.
Qed.

(** [DATE(created_at)] is the key of the rows created on a calendar day. *)
Lemma created_on_DATE (dt : date) (r : feedback_row) :
  created_on dt r = true <-> DATE (f_created_at r) = dt.
Proof.
  unfold created_on, DATE. rewrite !andb_true_iff, !Z.eqb_eq.
  destruct (dt_date (f_created_at r)) as [y m dd], dt as [y' m' dd'].
  cbn [year month day]. split.
  - intros [[-> ->] ->]. reflexivity.
  - intros H. inversion H. auto.
Qed.

Lemma rows_of_key_created_on (dt : date) (rows : list feedback_row) :
  rows_of_key (fun r => DATE (f_created_at r)) date_compare dt rows
  = rows_created_on dt rows.
Proof.
  apply filter_ext. intros r.
  destruct (created_on dt r) eqn:E.
  - apply created_on_DATE in E.
    apply (same_key_iff (fun r => DATE (f_created_at r)) date_compare).
    exact E.
  - destruct (same_key (fun r => DATE (f_created_at r)) date_compare dt r)
      eqn:E'; [|reflexivity].
    apply (same_key_iff (fun r => DATE (f_created_at r)) date_compare) in E'.
    apply created_on_DATE in E'. congruence.
Qed.

(** The order of the dates is the order of the calendar. *)
Lemma date_compare_before (a b : date) :
  date_compare a b = Lt <-> date_before a b.
Proof.
  unfold date_compare, date_before, lex.
  destruct (Z.compare_spec (year a) (year b)) as [Hy|Hy|Hy];
    [|split; [auto|reflexivity]|split; [discriminate|lia]].
  destruct (Z.compare_spec (month a) (month b)) as [Hm|Hm|Hm];
    [|split; [auto|reflexivity]|split; [discriminate|lia]].
  destruct (Z.compare_spec (day a) (day b)) as [Hd|Hd|Hd];
    [split; [discriminate|lia]|split; [auto|reflexivity]
    |split; [discriminate|lia]].
Qed.

Lemma sorted_before (l : list date) :
  StronglySorted (fun a b => date_compare a b = Lt) l ->
  StronglySorted date_before l.
Proof.
  induction 1 as [|a l Hs IH Hall]; constructor; [exact IH|].
  eapply Forall_impl; [|exact Hall]. intros b. apply date_compare_before.
Qed.

Section Averages.

Context {L : Libraries}.
Context {A : AvgRounded L}.


End Averages.


(** Three scores of 0.4404 average to 0.44040000000000007, above each of
    them. *)
Example avg_of_equal_scores :
  let s := Binary64.round64 (4404 # 10000) in
  s = (3966770551787933 # 9007199254740992)%Q
  /\ Binary64.avg [s; s; s] = (7933541103575867 # 18014398509481984)%Q
  /\ (s < Binary64.avg [s; s; s])%Q.
Proof. split; [reflexivity|]. split; reflexivity. Qed.


Example sample_sentiment_summary :
  select_sentiment_summary Sample.populated
  = [("negative", 1); ("neutral", 1); ("positive", 1)].
Proof. reflexivity. Qed.

Example sample_avg_sentiment :
  map fst (select_avg_sentiment (L := Sample.libraries) Sample.populated)
  = [mkDate 2024 5 17; mkDate 2024 5 18].
Proof. reflexivity. Qed.

(** * Further properties *)

(** ** Orders *)

Section OrderFacts.

Context {K : Type}.
Variable cmp : K -> K -> comparison.
Context {O : KeyOrder cmp}.

Lemma cmp_flip_not_lt (x y : K) : cmp x y <> Gt <-> cmp y x <> Lt.
Proof.
  split; intros H E; apply H; now apply cmp_gt.
Qed.

Lemma cmp_not_lt_trans (x y z : K) :
  cmp x y <> Lt -> cmp y z <> Lt -> cmp x z <> Lt.
Proof.
  intros Hxy Hyz Hxz.
  destruct (cmp x y) eqn:E1; [| congruence |].
  - apply cmp_eq in E1. subst y. contradiction.
  - apply cmp_gt in E1. apply Hyz. exact (cmp_trans _ _ _ E1 Hxz).
Qed.

End OrderFacts.

#[export] Instance Z_key_order : KeyOrder Z.compare.
Proof.
  split.
  - apply Z.compare_eq_iff.
  - intros x y. rewrite Z.compare_gt_iff, Z.compare_lt_iff. tauto.
  - intros x y z. rewrite !Z.compare_lt_iff. lia.
Qed.

#[export] Instance pair_key_order {A B : Type}
    (ca : A -> A -> comparison) (cb : B -> B -> comparison)
    {OA : KeyOrder ca} {OB : KeyOrder cb} : KeyOrder (pair_compare ca cb).
Proof.
  split.
  - intros [a1 b1] [a2 b2]. unfold pair_compare, lex. simpl.
    destruct (ca a1 a2) eqn:E.
    + apply cmp_eq in E. subst a2. rewrite cmp_eq.
      split; [intros ->; reflexivity|intros H; now inversion H].
    + split; [discriminate|]. intros H. inversion H; subst.
      rewrite (cmp_refl ca) in E. discriminate.
    + split; [discriminate|]. intros H. inversion H; subst.
      rewrite (cmp_refl ca) in E. discriminate.
  - intros [a1 b1] [a2 b2]. unfold pair_compare, lex. simpl.
    destruct (ca a1 a2) eqn:E.
    + apply cmp_eq in E. subst a2. rewrite (cmp_refl ca). apply cmp_gt.
    + rewrite (cmp_lt_gt ca _ _ E). split; discriminate.
    + apply cmp_gt in E. rewrite E. tauto.
  - intros [a1 b1] [a2 b2] [a3 b3]. unfold pair_compare, lex. simpl.
    destruct (ca a1 a2) eqn:E12; try discriminate.
    + apply cmp_eq in E12. subst a2.
      destruct (ca a1 a3); try tauto. apply cmp_trans.
    + intros _. destruct (ca a2 a3) eqn:E23; try discriminate.
      * apply cmp_eq in E23. subst a3. now rewrite E12.
      * now rewrite (cmp_trans _ _ _ E12 E23).
Qed.

#[export] Instance datetime_key_order : KeyOrder datetime_compare.
Proof.
  pose (cmp := pair_compare date_compare
                 (pair_compare Z.compare (pair_compare Z.compare Z.compare))).
  assert (Hc : forall a b,
             datetime_compare a b
             = cmp (datetime_fields a) (datetime_fields b))
    by reflexivity.
  assert (O : KeyOrder cmp) by (unfold cmp; typeclasses eauto).
  split.
  - intros a b. rewrite Hc, cmp_eq. split; [|intros ->; reflexivity].
    destruct a as [d1 h1 m1 s1], b as [d2 h2 m2 s2].
    unfold datetime_fields. simpl. intros H. now inversion H.
  - intros a b. rewrite !Hc. apply cmp_gt.
  - intros a b c. rewrite !Hc. apply cmp_trans.
Qed.

#[export] Instance text_key_order : KeyOrder text_compare.
Proof.
  split.
  - intros [x|] [y|]; simpl; try (split; [discriminate|congruence]);
      [|tauto].
    rewrite cmp_eq. split; congruence.
  - intros [x|] [y|]; simpl; try (split; discriminate); try tauto.
    apply cmp_gt.
  - intros [x|] [y|] [z|]; simpl; try discriminate; try tauto.
    apply cmp_trans.
Qed.

Lemma not_older_trans (a b c : feedback_row) :
  not_older a b -> not_older b c -> not_older a c.
Proof. unfold not_older. apply (cmp_not_lt_trans datetime_compare). Qed.

(** ** Listings *)

Lemma insert_desc_in (r x : feedback_row) (l : list feedback_row) :
  In x (insert_desc r l) <-> x = r \/ In x l.
Proof.
  split.
  - intros H. apply (Permutation_in _ (insert_desc_perm r l)) in H.
    destruct H as [<- | H]; auto.
  - intros H. apply (Permutation_in _ (Permutation_sym (insert_desc_perm r l))).
    destruct H as [-> | H]; [left; reflexivity|right; exact H].
Qed.

Lemma insert_desc_sorted (r : feedback_row) (l : list feedback_row) :
  StronglySorted not_older l -> StronglySorted not_older (insert_desc r l).
Proof.
  induction l as [|x l IH]; simpl; intros Hs.
  - constructor; constructor.
  - inversion Hs as [|? ? Hs' Hall]; subst.
    assert (Hfront : datetime_compare (f_created_at x) (f_created_at r) <> Gt ->
                     StronglySorted not_older (r :: x :: l)).
    { intros Hle. constructor; [exact Hs|].
      apply (cmp_flip_not_lt datetime_compare) in Hle.
      constructor; [exact Hle|].
      eapply Forall_impl; [|exact Hall].
      intros y Hy. exact (not_older_trans _ _ _ Hle Hy). }
    destruct (datetime_compare (f_created_at x) (f_created_at r)) eqn:E.
    + apply Hfront. discriminate.
    + apply Hfront. discriminate.
    + constructor; [apply IH, Hs'|].
      apply Forall_forall. intros y Hy. apply insert_desc_in in Hy.
      destruct Hy as [-> | Hy].
      * unfold not_older. rewrite E. discriminate.
      * rewrite Forall_forall in Hall. apply Hall, Hy.
Qed.

Lemma order_by_created_at_desc_sorted (l : list feedback_row) :
  StronglySorted not_older (order_by_created_at_desc l).
Proof.
  induction l as [|x l IH]; simpl; [constructor|].
  apply insert_desc_sorted, IH.
Qed.

(** A row that nothing in the list is newer than goes to the front. *)
Lemma insert_desc_front (r : feedback_row) (l : list feedback_row) :
  Forall (fun y => datetime_compare (f_created_at y) (f_created_at r) <> Gt) l ->
  insert_desc r l = r :: l.
Proof.
  destruct l as [|x l]; simpl; [reflexivity|].
  intros H. inversion H; subst.
  destruct (datetime_compare (f_created_at x) (f_created_at r));
    [reflexivity|reflexivity|contradiction].
Qed.

Lemma filter_insert_desc (p : feedback_row -> bool) (r : feedback_row)
    (l : list feedback_row) :
  StronglySorted not_older l ->
  filter p (insert_desc r l)
  = if p r then insert_desc r (filter p l) else filter p l.
Proof.
  induction l as [|x l IH]; intros Hs.
  - simpl. destruct (p r); reflexivity.
  - inversion Hs as [|? ? Hs' Hall]; subst. specialize (IH Hs').
    assert (Hfront :
              datetime_compare (f_created_at x) (f_created_at r) <> Gt ->
              filter p (r :: x :: l)
              = if p r then insert_desc r (filter p (x :: l))
                else filter p (x :: l)).
    { intros Hx.
      assert (Hle : Forall (fun y => datetime_compare (f_created_at y)
                                       (f_created_at r) <> Gt)
                           (filter p (x :: l))).
      { apply Forall_forall. intros y Hy. apply filter_In in Hy.
        destruct Hy as [[<- | Hy] _]; [exact Hx|].
        rewrite Forall_forall in Hall. specialize (Hall y Hy).
        apply (cmp_flip_not_lt datetime_compare).
        apply (cmp_not_lt_trans datetime_compare _ (f_created_at x));
          [|exact Hall].
        apply (cmp_flip_not_lt datetime_compare). exact Hx. }
      change (filter p (r :: x :: l))
        with (if p r then r :: filter p (x :: l) else filter p (x :: l)).
      destruct (p r); [|reflexivity].
      now rewrite (insert_desc_front _ _ Hle). }
    cbn [insert_desc].
    destruct (datetime_compare (f_created_at x) (f_created_at r)) eqn:E.
    + apply Hfront. try rewrite E. discriminate.
    + apply Hfront. try rewrite E. discriminate.
    + cbn [filter]. destruct (p x).
      * rewrite IH. destruct (p r); [|reflexivity].
        cbn [insert_desc]. rewrite E. reflexivity.
      * exact IH.
Qed.

Lemma order_by_filter (p : feedback_row -> bool) (l : list feedback_row) :
  order_by_created_at_desc (filter p l)
  = filter p (order_by_created_at_desc l).
Proof.
  induction l as [|x l IH]; [reflexivity|].
  cbn [order_by_created_at_desc fold_right].
  fold (order_by_created_at_desc l).
  rewrite filter_insert_desc by apply order_by_created_at_desc_sorted.
  cbn [filter]. destruct (p x); [|exact IH].
  cbn [order_by_created_at_desc fold_right].
  fold (order_by_created_at_desc (filter p l)). now rewrite IH.
Qed.

Lemma order_by_newest_last (r : feedback_row) (l acc : list feedback_row) :
  Forall (fun y => datetime_compare (f_created_at y) (f_created_at r) = Lt) l ->
  fold_right insert_desc (r :: acc) l = r :: fold_right insert_desc acc l.
Proof.
  induction l as [|x l IH]; intros H; [reflexivity|].
  inversion H as [|? ? Hx Hl]; subst. simpl. rewrite (IH Hl). simpl.
  rewrite (cmp_lt_gt datetime_compare _ _ Hx). reflexivity.
Qed.

Lemma filter_none {A : Type} (f : A -> bool) (l : list A) :
  (forall x, In x l -> f x = false) -> filter f l = [].
Proof.
  induction l as [|a l IH]; simpl; [reflexivity|].
  intros H. rewrite (H a (or_introl eq_refl)). auto.
Qed.

(** X1.  The listing of all feedback is the table reordered and nothing
    else, and it runs from the newest row to the oldest: no row is followed,
    however far down, by a row created after it. *)
Theorem all_feedback_newest_first (d : db) :
  exists rows,
    get_all_feedback d = (d, Reply 200 (FeedbackRows rows))
    /\ Permutation rows (feedback d)
    /\ StronglySorted not_older rows.
Proof.
  exists (order_by_created_at_desc (feedback d)).
  split; [reflexivity|].
  split; [apply order_by_created_at_desc_perm
         |apply order_by_created_at_desc_sorted].
Qed.

Section ListingForUser.

Context {L : Libraries}.

(** X2.  The listing for the decimal text of a user_id [u] is the listing of
    all feedback with the rows of other users and of guests left out, in the
    same order: it holds exactly the rows whose user_id is [u], and it is
    answered 200 with no rows when the table has none of them. *)
Theorem user_feedback_is_filtered_listing (d : db) (u : Z) :
  int64 u ->
  get_feedback_user d (NumText.text_of_int u)
  = (d, Reply 200 (FeedbackRows
                     (filter (has_user_id u)
                             (rows_of (snd (get_all_feedback d))))))
  /\ (forall row,
        In row (rows_of (snd (get_feedback_user d (NumText.text_of_int u))))
        <-> In row (feedback d) /\ f_user_id row = Some u)
  /\ ((forall row, In row (feedback d) -> f_user_id row <> Some u) ->
      get_feedback_user d (NumText.text_of_int u)
      = (d, Reply 200 (FeedbackRows []))).
Proof.
  intros Hu.
  assert (Hfilter : filter (user_id_matches (NumText.text_of_int u))
                           (feedback d)
                    = filter (has_user_id u) (feedback d)).
  { apply filter_ext. intros row.
    now apply user_id_matches_text_of_int. }
  assert (Hhas : forall row, has_user_id u row = true
                             <-> f_user_id row = Some u).
  { intros row. unfold has_user_id. destruct (f_user_id row) as [v|].
    - rewrite Z.eqb_eq. split; congruence.
    - split; discriminate. }
  unfold get_feedback_user. rewrite Hfilter.
  split; [|split].
  - cbn [get_all_feedback snd rows_of]. now rewrite order_by_filter.
  - intros row. cbn [snd rows_of].
    rewrite in_order_by_created_at_desc, filter_In, Hhas. reflexivity.
  - intros Hnone. rewrite filter_none; [reflexivity|].
    intros row Hrow. destruct (has_user_id u row) eqn:E; [|reflexivity].
    apply Hhas in E. exfalso. exact (Hnone row Hrow E).
Qed.

End ListingForUser.

Lemma user_feedback_is_filtered_listing_witness :
  map f_id (rows_of (snd (get_feedback_user (L := Sample.libraries)
                            MoreSamples.busy "1"))) = [3; 1]
  /\ get_feedback_user (L := Sample.libraries) MoreSamples.busy "7"
     = (MoreSamples.busy, Reply 200 (FeedbackRows []))
  /\ forall row,
       In row (rows_of (snd (get_feedback_user (L := Sample.libraries)
                               MoreSamples.busy "2")))
       <-> In row (feedback MoreSamples.busy) /\ f_user_id row = Some 2.
Proof.
  split; [reflexivity|].
  assert (H7 : int64 7) by (unfold int64; lia).
  assert (H2 : int64 2) by (unfold int64; lia).
  destruct (user_feedback_is_filtered_listing (L := Sample.libraries)
              MoreSamples.busy 7 H7) as (_ & _ & Hempty).
  destruct (user_feedback_is_filtered_listing (L := Sample.libraries)
              MoreSamples.busy 2 H2) as (_ & Hexact & _).
  split.
  - apply Hempty. intros row Hrow.
    repeat (destruct Hrow as [<- | Hrow]; [discriminate|]). destruct Hrow.
  - exact Hexact.
Defined.

Section InsertThenList.

Context {L : Libraries}.

(** X3.  When a request is accepted at a time later than the creation of
    every row of the table, the listing of all feedback afterwards is the
    new row followed by the listing as it was before. *)
Theorem newest_feedback_listed_first
    (d d' : db) (req : feedback_body) (now : datetime) (b : body) :
  post_feedback d req now = (d', Reply 200 b) ->
  Forall (fun y => datetime_compare (f_created_at y) now = Lt) (feedback d) ->
  exists row,
    rows_of (snd (get_all_feedback d'))
    = row :: rows_of (snd (get_all_feedback d))
    /\ b_feedback_text req = Some (f_feedback_text row)
    /\ f_created_at row = now
    /\ f_sentiment_label row
       = sentiment_label (polarity_compound (f_feedback_text row)).
Proof.
  intros H Hlate. apply post_feedback_accepted in H.
  destruct H as (Hm & _ & Hf & _).
  exists (row_of_request d req now). simpl rows_of.
  split.
  - rewrite Hf. unfold order_by_created_at_desc.
    rewrite fold_right_app. simpl fold_right at 2.
    apply order_by_newest_last. exact Hlate.
  - split; [|split; reflexivity].
    unfold missing_fields in Hm.
    apply orb_false_iff in Hm. destruct Hm as [Hm _].
    apply orb_false_iff in Hm. destruct Hm as [Ht _].
    cbn. destruct (b_feedback_text req); [reflexivity|discriminate].
Qed.

End InsertThenList.

Lemma newest_feedback_listed_first_witness :
  exists row,
    rows_of (snd (get_all_feedback
                    (fst (post_feedback (L := Sample.libraries)
                            Sample.populated Sample.praise
                            MoreSamples.evening))))
    = row :: rows_of (snd (get_all_feedback Sample.populated))
    /\ f_id row = 4.
Proof.
  destruct (newest_feedback_listed_first (L := Sample.libraries)
              Sample.populated
              (fst (post_feedback (L := Sample.libraries) Sample.populated
                      Sample.praise MoreSamples.evening))
              Sample.praise MoreSamples.evening SuccessBody eq_refl)
    as (row & Hrows & _).
  - repeat constructor.
  - exists row. split; [exact Hrows|].
    pose proof (f_equal (@hd_error _) Hrows) as Hhead.
    vm_compute in Hhead. injection Hhead as <-. reflexivity.
Defined.

(** ** Requests that fail *)

Lemma filter_length_eq {A : Type} (f : A -> bool) (l : list A) :
  List.length (filter f l) = List.length l -> filter f l = l.
Proof.
  induction l as [|a l IH]; simpl; [reflexivity|].
  destruct (f a) eqn:E; simpl.
  - intros H. f_equal. apply IH. lia.
  - intros H. pose proof (filter_length_le f l). lia.
Qed.

Lemma find_some_existsb {A : Type} (f : A -> bool) (l : list A) (x : A) :
  find f l = Some x -> existsb f l = true.
Proof.
  intros H. apply find_some in H. apply existsb_exists.
  exists x. exact H.
Qed.

Section FailedRequests.

Context {L : Libraries}.

(** X4.  A request that is not answered 200 leaves the database exactly as
    it was: a rejected registration, a failed login, a feedback refused by
    the guard or by the CHECK, a deletion of nothing or of a malformed id
    change no table and no sequence. *)
Theorem failed_request_changes_nothing (d : db) (r : request) :
  answered_200 (snd (handle d r)) = false ->
  fst (handle d r) = d.
Proof.
  destruct r; simpl; try reflexivity.
  - unfold post_register.
    destruct (Js.falsy (c_username req) || Js.falsy (c_password req));
      [reflexivity|].
    unfold insert_user.
    destruct (existsb _ (users d)) eqn:Hex; [reflexivity|].
    apply existsb_false_find in Hex.
    unfold select_user. simpl users.
    rewrite (find_app_none _ _ _ Hex). simpl.
    rewrite String.eqb_refl. discriminate.
  - intros _. apply post_login_fst.
  - destruct (post_feedback_cases d req now)
      as [[_ E] | [[_ [_ E]] | [_ [_ E]]]]; rewrite E;
      [reflexivity|reflexivity|discriminate].
  - unfold delete_feedback.
    destruct ((feedbackId =? "")%string || NumText.isNaN feedbackId);
      [reflexivity|].
    unfold delete_feedback_rows.
    destruct (0 <? _) eqn:E; [discriminate|].
    intros _. simpl. apply Z.ltb_ge in E.
    pose proof (filter_length_le (fun r => negb (id_matches feedbackId r))
                  (feedback d)) as Hle.
    rewrite filter_length_eq by lia. destruct d; reflexivity.
Qed.

(** X5.  Once a username is registered it stays taken: after any further
    requests, a registration under the same username, whatever its password,
    is answered 400 with "User already exists or DB error" and stores
    nothing. *)
Theorem registered_username_stays_taken
    (d d' : db) (req again : credentials) (salt salt' : string) (id : Z)
    (rs : list request) :
  post_register d req salt = (d', Reply 200 (UserBody id)) ->
  c_username again = c_username req ->
  Js.falsy (c_password again) = false ->
  post_register (run d' rs) again salt'
  = (run d' rs, Reply 400 (ErrorBody "User already exists or DB error")).
Proof.
  intros H Hu Hp. apply post_register_accepted in H.
  destruct H as (Hfu & _ & _ & Hs).
  apply (select_user_run rs) in Hs.
  unfold post_register. rewrite Hu, Hfu, Hp. simpl.
  unfold insert_user. unfold select_user in Hs.
  now rewrite (find_some_existsb _ _ _ Hs).
Qed.

End FailedRequests.

Lemma failed_request_changes_nothing_witness :
  fst (handle (L := Sample.libraries) MoreSamples.busy (DELETE_feedback "99"))
  = MoreSamples.busy
  /\ fst (handle (L := Sample.libraries) MoreSamples.busy
            (POST_register Sample.alice "salt9"))
     = MoreSamples.busy.
Proof.
  split;
    apply (failed_request_changes_nothing (L := Sample.libraries));
    reflexivity.
Defined.

Lemma registered_username_stays_taken_witness :
  let again := mkCredentials (Some "alice") (Some "other") in
  post_register (L := Sample.libraries) MoreSamples.busy again "salt3"
  = (MoreSamples.busy,
     Reply 400 (ErrorBody "User already exists or DB error")).
Proof.
  intros again.
  apply (registered_username_stays_taken (L := Sample.libraries)
           empty_db
           (run (L := Sample.libraries) empty_db
                [POST_register Sample.alice "salt1"])
           Sample.alice again "salt1" "salt3" 1
           [POST_feedback Sample.bug_report Sample.noon;
            POST_feedback Sample.guest_note Sample.noon;
            POST_feedback Sample.praise Sample.next_day;
            POST_register MoreSamples.bob "salt2";
            POST_feedback
              (mkFeedbackBody (Some 2) (Some "bob") (Some "admin") None
                              (Some "fine by me"))
              MoreSamples.evening]);
    reflexivity.
Defined.

(** ** What every request keeps *)

Lemma NoDup_snoc {A : Type} (l : list A) (x : A) :
  NoDup l -> ~ In x l -> NoDup (l ++ [x]).
Proof.
  induction l as [|a l IH]; simpl; intros Hn Hx.
  - constructor; [tauto|constructor].
  - inversion Hn; subst. constructor.
    + rewrite in_app_iff. simpl. intuition congruence.
    + apply IH; tauto.
Qed.

Lemma ascending_snoc (l : list Z) (x : Z) :
  StronglySorted Z.lt l -> (forall y, In y l -> y < x) ->
  StronglySorted Z.lt (l ++ [x]).
Proof.
  induction l as [|a l IH]; simpl; intros Hs Hx.
  - constructor; constructor.
  - inversion Hs as [|? ? Hs' Hall]; subst. constructor.
    + apply IH; auto.
    + apply Forall_app. split; [exact Hall|].
      constructor; [apply Hx; left; reflexivity|constructor].
Qed.

Lemma ascending_filter {A : Type} (f : A -> Z) (p : A -> bool) (l : list A) :
  StronglySorted Z.lt (map f l) -> StronglySorted Z.lt (map f (filter p l)).
Proof.
  induction l as [|a l IH]; simpl; intros Hs; [constructor|].
  inversion Hs as [|? ? Hs' Hall]; subst.
  destruct (p a); simpl; [|auto].
  constructor; [auto|].
  rewrite Forall_forall in *. intros y Hy. apply Hall.
  apply in_map_iff in Hy. destruct Hy as (z & <- & Hz).
  apply filter_In in Hz. apply in_map, Hz.
Qed.

Lemma ascending_distinct (l : list Z) : StronglySorted Z.lt l -> NoDup l.
Proof.
  induction l as [|a l IH]; intros Hs; [constructor|].
  inversion Hs as [|? ? Hs' Hall]; subst. constructor; [|auto].
  intros Hin. rewrite Forall_forall in Hall. specialize (Hall a Hin). lia.
Qed.

Lemma NoDup_map_inj {A B : Type} (f : A -> B) (l : list A) (a b : A) :
  NoDup (map f l) -> In a l -> In b l -> f a = f b -> a = b.
Proof.
  induction l as [|x l IH]; simpl; [tauto|].
  intros Hn Ha Hb Hf. inversion Hn as [|? ? Hx Hn']; subst.
  destruct Ha as [-> | Ha], Hb as [-> | Hb]; auto.
  - exfalso. apply Hx. rewrite Hf. apply in_map, Hb.
  - exfalso. apply Hx. rewrite <- Hf. apply in_map, Ha.
Qed.

Section Invariants.

Context {L : Libraries}.

Lemma tables_keyed_handle (d : db) (r : request) :
  tables_keyed d -> tables_keyed (fst (handle d r)).
Proof.
  intros (Hn & Hu & Hf). destruct r; simpl; try (repeat split; assumption).
  - unfold post_register.
    destruct (Js.falsy (c_username req) || Js.falsy (c_password req));
      [repeat split; assumption|].
    unfold insert_user.
    destruct (existsb _ (users d)) eqn:Hex; [repeat split; assumption|].
    set (d' := mkDb _ _ _ _).
    assert (Hd' : tables_keyed d').
    { pose proof (next_rowid_fresh (users_seq d) (map u_id (users d)))
        as (_ & _ & Hids).
      unfold d', tables_keyed. simpl. rewrite !map_app. simpl.
      repeat split; [|apply ascending_snoc; assumption|exact Hf].
      apply NoDup_snoc; [exact Hn|].
      intros Hin. apply in_map_iff in Hin. destruct Hin as (u & Heq & Hin).
      assert (Htrue : existsb (fun u0 => (u_username u0
                                          =? Js.str (c_username req))%string)
                              (users d) = true).
      { apply existsb_exists. exists u. split; [exact Hin|].
        now apply String.eqb_eq. }
      congruence. }
    destruct (select_user d' _); exact Hd'.
  - rewrite post_login_fst. repeat split; assumption.
  - destruct (post_feedback_cases d req now)
      as [[_ E] | [[_ [_ E]] | [_ [_ E]]]]; rewrite E;
      try (repeat split; assumption).
    pose proof (next_rowid_fresh (feedback_seq d) (map f_id (feedback d)))
      as (_ & _ & Hids).
    unfold tables_keyed. simpl. rewrite map_app. simpl.
    repeat split; [exact Hn|exact Hu|].
    apply ascending_snoc; assumption.
  - destruct (invalid_id feedbackId) eqn:Hv.
    + rewrite delete_feedback_rejected by exact Hv. repeat split; assumption.
    + rewrite delete_feedback_fst by exact Hv. unfold tables_keyed. simpl.
      repeat split; [exact Hn|exact Hu|]. apply ascending_filter, Hf.
Qed.

Lemma tables_keyed_run (rs : list request) (d : db) :
  tables_keyed d -> tables_keyed (run d rs).
Proof.
  revert d. induction rs as [|r rs IH]; intros d H; [exact H|].
  simpl. apply IH, tables_keyed_handle, H.
Qed.

(** X6.  Starting from tables whose usernames are distinct and whose rowids
    ascend (the empty database is one), every sequence of requests leaves
    them so: no username is stored twice, and in each table the rowids
    ascend in table order, so that no rowid is held by two rows. *)
Theorem tables_stay_keyed (d : db) (rs : list request) :
  tables_keyed d ->
  tables_keyed (run d rs)
  /\ NoDup (map u_id (users (run d rs)))
  /\ NoDup (map f_id (feedback (run d rs))).
Proof.
  intros H. pose proof (tables_keyed_run rs d H) as Hrun.
  split; [exact Hrun|].
  destruct Hrun as (_ & Hu & Hf).
  split; apply ascending_distinct; assumption.
Qed.

Lemma users_persist_handle (d : db) (r : request) :
  exists added,
    users (fst (handle d r)) = users d ++ added
    /\ users_seq d <= users_seq (fst (handle d r))
    /\ feedback_seq d <= feedback_seq (fst (handle d r)).
Proof.
  assert (Hsame : exists added : list user_row,
             users d = users d ++ added /\ users_seq d <= users_seq d
             /\ feedback_seq d <= feedback_seq d).
  { exists []. rewrite app_nil_r. repeat split; lia. }
  destruct r; simpl; try exact Hsame.
  - unfold post_register.
    destruct (Js.falsy (c_username req) || Js.falsy (c_password req));
      [exact Hsame|].
    unfold insert_user.
    destruct (existsb _ (users d)); [exact Hsame|].
    set (d' := mkDb _ _ _ _).
    assert (Hd' : exists added,
               users d' = users d ++ added /\ users_seq d <= users_seq d'
               /\ feedback_seq d <= feedback_seq d').
    { pose proof (next_rowid_fresh (users_seq d) (map u_id (users d)))
        as (_ & Hgt & _).
      eexists. unfold d'. simpl. repeat split; lia. }
    destruct (select_user d' _); exact Hd'.
  - rewrite post_login_fst. exact Hsame.
  - destruct (post_feedback_cases d req now)
      as [[_ E] | [[_ [_ E]] | [_ [_ E]]]]; rewrite E; try exact Hsame.
    pose proof (next_rowid_fresh (feedback_seq d) (map f_id (feedback d)))
      as (_ & Hgt & _).
    exists []. simpl. rewrite app_nil_r. repeat split; lia.
  - destruct (invalid_id feedbackId) eqn:Hv.
    + rewrite delete_feedback_rejected by exact Hv. exact Hsame.
    + rewrite delete_feedback_fst by exact Hv. exact Hsame.
Qed.

(** X7.  No request removes or alters a user, and no request turns a
    sequence back: after any requests the users table is the old one with
    rows added at its end, and both AUTOINCREMENT sequences are at least
    what they were. *)
Theorem users_persist (d : db) (rs : list request) :
  exists added,
    users (run d rs) = users d ++ added
    /\ users_seq d <= users_seq (run d rs)
    /\ feedback_seq d <= feedback_seq (run d rs).
Proof.
  revert d. induction rs as [|r rs IH]; intros d.
  - exists []. simpl. rewrite app_nil_r. repeat split; lia.
  - simpl. destruct (users_persist_handle d r) as (a1 & H1 & H2 & H3).
    destruct (IH (fst (handle d r))) as (a2 & H4 & H5 & H6).
    exists (a1 ++ a2). unfold run in *. rewrite H4, H1, app_assoc.
    repeat split; lia.
Qed.

Lemma stored_row_ok_request (d : db) (req : feedback_body) (now : datetime) :
  missing_fields req = false ->
  role_check (Js.str (b_role req)) = true ->
  stored_row_ok (row_of_request d req now).
Proof.
  intros Hm Hr. unfold missing_fields in Hm.
  apply orb_false_iff in Hm. destruct Hm as [Hm _].
  apply orb_false_iff in Hm. destruct Hm as [Ht _].
  unfold stored_row_ok. cbn.
  repeat split; try discriminate; try assumption.
  - destruct (b_feedback_text req) as [t|]; [|discriminate].
    cbn in *. now apply String.eqb_neq.
  - unfold Js.or_null, Js.falsy_num.
    destruct (b_user_id req) as [u|]; [|discriminate].
    destruct (Js.Number u =? 0) eqn:E; [discriminate|].
    apply Z.eqb_neq in E. cbn [option_map]. congruence.
Qed.

Lemma stored_rows_ok_handle (d : db) (r : request) :
  Forall stored_row_ok (feedback d) ->
  Forall stored_row_ok (feedback (fst (handle d r))).
Proof.
  intros H. destruct r; simpl; try exact H.
  - unfold post_register.
    destruct (Js.falsy (c_username req) || Js.falsy (c_password req));
      [exact H|].
    unfold insert_user.
    destruct (existsb _ (users d)); [exact H|].
    set (d' := mkDb _ _ _ _).
    destruct (select_user d' _); exact H.
  - rewrite post_login_fst. exact H.
  - destruct (post_feedback_cases d req now)
      as [[_ E] | [[_ [_ E]] | [Hm [Hr E]]]]; rewrite E; try exact H.
    simpl. apply Forall_app. split; [exact H|].
    constructor; [|constructor]. now apply stored_row_ok_request.
  - destruct (invalid_id feedbackId) eqn:Hv.
    + rewrite delete_feedback_rejected by exact Hv. exact H.
    + rewrite delete_feedback_fst by exact Hv. simpl.
      rewrite Forall_forall in *. intros row Hin.
      apply filter_In in Hin. apply H, Hin.
Qed.

(** X8.  Every row the server stores is well formed and stays so: its role
    is guest, user or admin; its feedback_text is not empty; its score is
    the compound polarity of its text and its label the label of that score;
    its username and feedback_type are not NULL; its user_id is NULL or not
    0.  This holds of every table reached from one of which it holds, the
    empty one among them. *)
Theorem stored_rows_stay_well_formed (d : db) (rs : list request) :
  Forall stored_row_ok (feedback d) ->
  forall row, In row (feedback (run d rs)) ->
    stored_row_ok row
    /\ (f_sentiment_label row = "positive"
        \/ f_sentiment_label row = "neutral"
        \/ f_sentiment_label row = "negative").
Proof.
  intros H.
  assert (Hrun : Forall stored_row_ok (feedback (run d rs))).
  { revert d H. induction rs as [|r rs IH]; intros d H; [exact H|].
    simpl. apply IH, stored_rows_ok_handle, H. }
  intros row Hin. rewrite Forall_forall in Hrun. specialize (Hrun row Hin).
  split; [exact Hrun|].
  destruct Hrun as (_ & _ & _ & Hl & _). rewrite Hl.
  unfold sentiment_label.
  destruct (Qltb _ _); [tauto|]. destruct (Qltb _ _); tauto.
Qed.

(** X9.  A login that succeeds names a stored user: the table holds a row
    with the returned id and the given username whose hash bcrypt accepts
    for the given password.  With the tables keyed, the id tells the user:
    two logins answered with the same id were made under the same
    username. *)
Theorem login_identifies_user
    (d : db) (req other : credentials) (id : Z) (d1 d2 : db) :
  tables_keyed d ->
  post_login d req = (d1, Reply 200 (UserBody id)) ->
  (exists row,
     In row (users d) /\ u_id row = id
     /\ c_username req = Some (u_username row)
     /\ bcrypt_compare (Js.str (c_password req)) (u_password row) = true)
  /\ (post_login d other = (d2, Reply 200 (UserBody id)) ->
      c_username other = c_username req).
Proof.
  intros (_ & Hids & _) H.
  assert (Hsound : forall r dd,
             post_login d r = (dd, Reply 200 (UserBody id)) ->
             exists row,
               In row (users d) /\ u_id row = id
               /\ c_username r = Some (u_username row)
               /\ bcrypt_compare (Js.str (c_password r)) (u_password row)
                  = true).
  { intros r dd. unfold post_login.
    destruct (Js.falsy (c_username r)) eqn:Hu; [discriminate|].
    destruct (Js.falsy (c_password r)); [discriminate|]. simpl.
    destruct (select_user d (Js.str (c_username r))) as [row|] eqn:Hs;
      [|discriminate].
    destruct (bcrypt_compare _ _) eqn:Hc; [|discriminate].
    intros Heq. inversion Heq; subst.
    apply find_some in Hs. destruct Hs as [Hin Hname].
    apply String.eqb_eq in Hname.
    exists row. repeat split; try assumption.
    destruct (c_username r) as [u|]; [|discriminate].
    simpl in Hname. now rewrite Hname. }
  split; [exact (Hsound req d1 H)|].
  intros H'.
  destruct (Hsound req d1 H) as (row & Hin & Hid & Hname & _).
  destruct (Hsound other d2 H') as (row' & Hin' & Hid' & Hname' & _).
  apply ascending_distinct in Hids.
  assert (row = row')
    by (apply (NoDup_map_inj u_id (users d)); congruence).
  congruence.
Qed.

End Invariants.

Lemma empty_db_keyed : tables_keyed empty_db.
Proof. repeat split; constructor. Qed.

Lemma tables_stay_keyed_witness :
  tables_keyed MoreSamples.busy
  /\ NoDup (map u_id (users MoreSamples.busy))
  /\ NoDup (map f_id (feedback MoreSamples.busy)).
Proof.
  apply (tables_stay_keyed (L := Sample.libraries) empty_db
           [POST_register Sample.alice "salt1";
            POST_feedback Sample.bug_report Sample.noon;
            POST_feedback Sample.guest_note Sample.noon;
            POST_feedback Sample.praise Sample.next_day;
            POST_register MoreSamples.bob "salt2";
            POST_feedback
              (mkFeedbackBody (Some 2) (Some "bob") (Some "admin") None
                              (Some "fine by me"))
              MoreSamples.evening]).
  exact empty_db_keyed.
Defined.

Lemma stored_rows_stay_well_formed_witness :
  Forall (fun row =>
            stored_row_ok (L := Sample.libraries) row
            /\ (f_sentiment_label row = "positive"
                \/ f_sentiment_label row = "neutral"
                \/ f_sentiment_label row = "negative"))
         (feedback Sample.populated).
Proof.
  apply Forall_forall.
  apply (stored_rows_stay_well_formed (L := Sample.libraries) empty_db
           [POST_register Sample.alice "salt1";
            POST_feedback Sample.bug_report Sample.noon;
            POST_feedback Sample.guest_note Sample.noon;
            POST_feedback Sample.praise Sample.next_day]).
  constructor.
Defined.

Lemma login_identifies_user_witness :
  exists row,
    In row (users MoreSamples.busy) /\ u_id row = 2
    /\ c_username MoreSamples.bob = Some (u_username row)
    /\ Sample.compare (Js.str (c_password MoreSamples.bob)) (u_password row)
       = true.
Proof.
  assert (Hkeyed : tables_keyed MoreSamples.busy)
    by (do 2 apply (tables_keyed_run (L := Sample.libraries));
        exact empty_db_keyed).
  exact (proj1 (login_identifies_user (L := Sample.libraries)
                  MoreSamples.busy MoreSamples.bob MoreSamples.bob 2
                  MoreSamples.busy MoreSamples.busy Hkeyed eq_refl)).
Defined.

(** ** Deletion *)

Lemma filter_length_lt_inv {A : Type} (f : A -> bool) (l : list A) :
  (List.length (filter f l) < List.length l)%nat ->
  exists x, In x l /\ f x = false.
Proof.
  induction l as [|a l IH]; simpl; [lia|].
  destruct (f a) eqn:E; simpl; intros H.
  - destruct IH as (x & Hx & Hf); [lia|]. exists x. auto.
  - exists a. auto.
Qed.

Section DeletionByIdText.

Context {L : Libraries}.

(** X10.  With no rowid held twice, a deletion by the decimal text of an id
    that is answered 200 removes exactly one row, the one of that id; the
    rows before and after it keep their places, and the users and both
    sequences are untouched. *)
Theorem delete_removes_exactly_one (d : db) (i : Z) :
  int64 i ->
  NoDup (map f_id (feedback d)) ->
  answered_200 (snd (delete_feedback d (NumText.text_of_int i))) = true ->
  exists before row after,
    feedback d = before ++ row :: after
    /\ f_id row = i
    /\ fst (delete_feedback d (NumText.text_of_int i))
       = mkDb (users d) (users_seq d) (before ++ after) (feedback_seq d).
Proof.
  intros Hi Hnd H.
  pose proof (invalid_id_text_of_int i) as Hv.
  assert (Hex : exists row, In row (feedback d) /\ has_id i row = true).
  { destruct (filter_length_lt_inv
                (fun r => negb (has_id i r)) (feedback d))
      as (row & Hin & Hm).
    - pose proof (delete_feedback_text_of_int d i Hi) as Hfst.
      unfold delete_feedback in H, Hfst. unfold invalid_id in Hv.
      rewrite Hv in H, Hfst. unfold delete_feedback_rows in H, Hfst.
      destruct (0 <? _) eqn:E; [|discriminate].
      apply Z.ltb_lt in E. cbn [fst] in Hfst.
      apply (f_equal feedback) in Hfst. cbn [feedback] in Hfst.
      rewrite Hfst in E. lia.
    - exists row. split; [exact Hin|]. now apply negb_false_iff. }
  destruct Hex as (row & Hin & Hm).
  apply in_split in Hin. destruct Hin as (before & after & Hsplit).
  exists before, row, after. split; [exact Hsplit|].
  unfold has_id in Hm. apply Z.eqb_eq in Hm. split; [exact Hm|].
  rewrite delete_feedback_text_of_int by exact Hi. f_equal.
  rewrite Hsplit in Hnd |- *. rewrite map_app in Hnd. simpl in Hnd.
  apply NoDup_remove_2 in Hnd. rewrite <- map_app in Hnd.
  assert (Hothers : forall y, In y (before ++ after) ->
                              negb (has_id i y) = true).
  { intros y Hy. apply negb_true_iff. unfold has_id.
    apply Z.eqb_neq. intros E. apply Hnd. rewrite Hm, <- E.
    apply in_map, Hy. }
  rewrite filter_app. simpl. unfold has_id at 2. rewrite Hm, Z.eqb_refl.
  simpl. rewrite <- filter_app. apply filter_all, Hothers.
Qed.

End DeletionByIdText.

Lemma delete_removes_exactly_one_witness :
  exists before row after,
    feedback MoreSamples.busy = before ++ row :: after
    /\ f_id row = 3
    /\ fst (delete_feedback (L := Sample.libraries) MoreSamples.busy "3")
       = mkDb (users MoreSamples.busy) (users_seq MoreSamples.busy)
              (before ++ after) (feedback_seq MoreSamples.busy).
Proof.
  apply (delete_removes_exactly_one (L := Sample.libraries)
           MoreSamples.busy 3);
    [unfold int64; lia| |reflexivity].
  apply ascending_distinct. vm_compute.
  repeat (constructor; [|repeat (constructor; try reflexivity)]).
  constructor.
Defined.

(** ** Analytics *)

Lemma rows_of_key_typed (t : option string) (rows : list feedback_row) :
  rows_of_key f_feedback_type text_compare t rows = rows_of_type t rows.
Proof. reflexivity. Qed.

(** X12.  The count by type has one entry for each feedback_type some row
    carries and for no other; the count of an entry is the number of rows of
    its type, which is not zero; the counts add up to the number of rows.
    As every stored row has a feedback_type that is not NULL, rows submitted
    without one are counted under the empty string and no entry is NULL. *)
Theorem count_by_type_counts (d : db) :
  exists counts,
    get_feedback_count_by_type d = (d, Reply 200 (TypeCounts counts))
    /\ NoDup (map fst counts)
    /\ (forall t, In t (map fst counts)
                  <-> exists row, In row (feedback d)
                                  /\ f_feedback_type row = t)
    /\ (forall t n, In (t, n) counts ->
                    n = Z.of_nat (List.length (rows_of_type t (feedback d)))
                    /\ 0 < n)
    /\ sum_counts (map snd counts) = Z.of_nat (List.length (feedback d))
    /\ ((forall row, In row (feedback d) -> f_feedback_type row <> None) ->
        ~ In None (map fst counts)).
Proof.
  exists (select_count_by_type d). unfold select_count_by_type.
  assert (Hkeys : forall t,
             In t (map fst (group_by f_feedback_type text_compare 0
                                     (fun n _ => n + 1) (feedback d)))
             <-> exists row, In row (feedback d) /\ f_feedback_type row = t)
    by (intros t; apply (group_by_keys f_feedback_type text_compare)).
  split; [reflexivity|].
  split; [apply (ascending_NoDup text_compare), group_by_ascending;
          exact text_key_order|].
  split; [exact Hkeys|].
  split; [|split; [apply count_group_by_total|]].
  - intros t n H.
    apply (in_group_by f_feedback_type text_compare) in H.
    destruct H as [Hne ->].
    unfold aggregate. rewrite count_fold. rewrite rows_of_key_typed in *.
    split; [reflexivity|].
    destruct (rows_of_type t (feedback d)); [congruence|simpl; lia].
  - intros Hnn Hin. apply Hkeys in Hin. destruct Hin as (row & Hr & Ht).
    exact (Hnn row Hr Ht).
Qed.

Lemma summary_count_rows (l : string) (d : db) :
  summary_count l (select_sentiment_summary d)
  = Z.of_nat (List.length (rows_labelled l (feedback d))).
Proof.
  unfold summary_count, select_sentiment_summary.
  rewrite (group_by_lookup f_sentiment_label String_as_OT.compare).
  unfold aggregate. rewrite count_fold, rows_of_key_labelled.
  destruct (rows_labelled l (feedback d)); reflexivity.
Qed.

Section SummaryAfterInsert.

Context {L : Libraries}.

(** X13.  An accepted feedback shows in the next sentiment summary: the
    count of the label of its text is one more than before and the count of
    every other label is what it was. *)
Theorem summary_counts_the_new_row
    (d d' : db) (req : feedback_body) (now : datetime) (b : body)
    (l : string) :
  post_feedback d req now = (d', Reply 200 b) ->
  summary_count l (select_sentiment_summary d')
  = summary_count l (select_sentiment_summary d)
    + (if (sentiment_label
             (polarity_compound (Js.str (b_feedback_text req))) =? l)%string
       then 1 else 0).
Proof.
  intros H. apply post_feedback_accepted in H.
  destruct H as (_ & _ & Hf & _).
  rewrite !summary_count_rows, Hf. unfold rows_labelled.
  rewrite filter_app, length_app. cbn [filter row_of_request f_sentiment_label].
  destruct (_ =? l)%string; simpl List.length; lia.
Qed.

End SummaryAfterInsert.

Lemma summary_counts_the_new_row_witness :
  summary_count "positive"
    (select_sentiment_summary
       (fst (post_feedback (L := Sample.libraries) Sample.populated
               Sample.praise MoreSamples.evening)))
  = 2.
Proof.
  etransitivity.
  - apply (summary_counts_the_new_row (L := Sample.libraries)
             Sample.populated
             (fst (post_feedback (L := Sample.libraries) Sample.populated
                     Sample.praise MoreSamples.evening))
             Sample.praise MoreSamples.evening SuccessBody "positive").
    reflexivity.
  - reflexivity.
Defined.

Lemma filter_comm {A : Type} (f g : A -> bool) (l : list A) :
  filter f (filter g l) = filter g (filter f l).
Proof.
  induction l as [|a l IH]; [reflexivity|]. simpl.
  destruct (f a) eqn:Ef, (g a) eqn:Eg; simpl; rewrite ?Ef, ?Eg, IH;
    reflexivity.
Qed.

Section ListingAfterDeletion.

Context {L : Libraries}.

(** X15.  A deletion does not reorder what is listed: after a deletion by
    the decimal text of an id, the listing of all feedback is the listing
    before it with the rows of that id taken out, and the same holds of the
    listing for the decimal text of a user_id. *)
Theorem delete_keeps_listing_order (d : db) (i u : Z) :
  int64 i ->
  int64 u ->
  let d' := fst (delete_feedback d (NumText.text_of_int i)) in
  rows_of (snd (get_all_feedback d'))
  = filter (fun r => negb (has_id i r))
           (rows_of (snd (get_all_feedback d)))
  /\ rows_of (snd (get_feedback_user d' (NumText.text_of_int u)))
     = filter (fun r => negb (has_id i r))
              (rows_of (snd (get_feedback_user d (NumText.text_of_int u)))).
Proof.
  intros Hi Hu d'. unfold d'.
  rewrite delete_feedback_text_of_int by exact Hi.
  simpl. split.
  - apply order_by_filter.
  - rewrite <- order_by_filter. f_equal. apply filter_comm.
Qed.

End ListingAfterDeletion.

Lemma delete_keeps_listing_order_witness :
  map f_id (rows_of (snd (get_all_feedback MoreSamples.busy)))
  = [4; 3; 1; 2]
  /\ map f_id (rows_of (snd (get_all_feedback
                               (fst (delete_feedback (L := Sample.libraries)
                                       MoreSamples.busy "1")))))
     = [4; 3; 2].
Proof.
  split; [reflexivity|].
  assert (H1 : int64 1) by (unfold int64; lia).
  pose proof (proj1 (delete_keeps_listing_order (L := Sample.libraries)
                       MoreSamples.busy 1 1 H1 H1)) as H.
  change (NumText.text_of_int 1) with "1" in H. rewrite H. reflexivity.
Defined.
